(** * llm_request_manager: the replay server (server.py) and its store (database.py)

    A shallow embedding of the FastAPI replay endpoint: the conversation
    store's search, the response locator, the SSE framer and the
    rate-controlled streaming generator, with the reading side of client.py
    and the event loop the generator runs on.

    Conventions.
    - A Python [str] is a list of code points ([text]); byte strings are lists
      of octets, both over [N].
    - Python floats are modelled by exact rationals ([Q]); integers that are
      mixed into float expressions are injected with [inject_Z].
    - [time.time()] is an oracle [clock : nat -> Q], indexed by the number of
      calls made so far, so every statement holds for every timing behaviour.
    - The generator's side effects ([time.time], [time.sleep], [yield],
      [print]) are collected, in program order, in a list of [effect]s.
    - [Database] and [Server] read the program over these exact numbers,
      with library calls that always return; [Sqlite] and [Runtime] read
      the same functions as they run: IEEE 754 doubles, SQLite's LIKE
      function, and calls into sqlite3, tiktoken, [time.sleep] and [print]
      that raise. *)

From Stdlib Require Import List NArith ZArith QArith Qminmax Qabs Bool String Ascii Lia Lqa.
From Stdlib Require Import Sorting.Sorted Permutation.
From Stdlib Require PrimFloat Uint63.
Import ListNotations.

Local Open Scope N_scope.

(* ------------------------------------------------------------------ *)
(** ** Text *)

Definition codepoint := N.
Definition text := list codepoint.

(** A string literal of the source, as a Python [str] (ASCII only). *)
Definition py (s : string) : text := map N_of_ascii (list_ascii_of_string s).

Definition text_eqb (a b : text) : bool :=
  if list_eq_dec N.eq_dec a b then true else false.

Fixpoint startswith (s prefix : text) : bool :=
  match prefix, s with
  | [], _ => true
  | p :: prefix', c :: s' => (p =? c) && startswith s' prefix'
  | _ :: _, [] => false
  end.

(** [needle in haystack] on Python strings. *)
Fixpoint str_in (needle haystack : text) : bool :=
  startswith haystack needle ||
  match haystack with
  | [] => false
  | _ :: rest => str_in needle rest
  end.

(* ------------------------------------------------------------------ *)
(** ** UTF-8, as [str.encode] and [bytes.decode(..., "strict")] have it *)

Module Utf8.

Definition is_surrogate (c : N) : bool := (0xD800 <=? c) && (c <=? 0xDFFF).

(** The code points a decoded text can hold: Unicode scalar values. *)
Definition is_scalar (c : N) : bool := (c <=? 0x10FFFF) && negb (is_surrogate c).

Definition encode_char (c : N) : list N :=
  if c <? 0x80 then [c]
  else if c <? 0x800 then [0xC0 + c / 64; 0x80 + c mod 64]
  else if c <? 0x10000 then
    [0xE0 + c / 4096; 0x80 + (c / 64) mod 64; 0x80 + c mod 64]
  else
    [0xF0 + c / 262144; 0x80 + (c / 4096) mod 64;
     0x80 + (c / 64) mod 64; 0x80 + c mod 64].

Definition encode (t : text) : list N := flat_map encode_char t.

Definition is_cont (b : N) : bool := (0x80 <=? b) && (b <? 0xC0).

(** The decoder reads one octet at a time.  [Pending k acc lo] waits for [k]
    more continuation octets of a character whose bits read so far are [acc]
    and whose shortest-form lower bound is [lo]. *)
Inductive dstate :=
| Start
| Pending (k : nat) (acc lo : N).

Inductive dstep :=
| Fail
| Emit (c : N)
| Continue (st : dstate).

Definition step (st : dstate) (b : N) : dstep :=
  match st with
  | Start =>
      if b <? 0x80 then Emit b
      else if b <? 0xC2 then Fail
      else if b <? 0xE0 then Continue (Pending 0 (b - 0xC0) 0x80)
      else if b <? 0xF0 then Continue (Pending 1 (b - 0xE0) 0x800)
      else if b <? 0xF5 then Continue (Pending 2 (b - 0xF0) 0x10000)
      else Fail
  | Pending k acc lo =>
      if is_cont b then
        let acc' := acc * 64 + (b - 0x80) in
        match k with
        | O => if (lo <=? acc') && is_scalar acc' then Emit acc' else Fail
        | S k' => Continue (Pending k' acc' lo)
        end
      else Fail
  end.

(** [None] is [UnicodeDecodeError]. *)
Fixpoint decode_from (st : dstate) (bs : list N) : option text :=
  match bs with
  | [] => match st with Start => Some [] | Pending _ _ _ => None end
  | b :: rest =>
      match step st b with
      | Fail => None
      | Emit c => option_map (cons c) (decode_from Start rest)
      | Continue st' => decode_from st' rest
      end
  end.

Definition decode (bs : list N) : option text := decode_from Start bs.

End Utf8.

(* ------------------------------------------------------------------ *)
(** ** json.dumps, as far as the framer uses it *)

Module Json.

Definition backslash : ascii := "092"%char.
Definition dquote : ascii := "034"%char.
Definition newline : ascii := "010"%char.

Definition str1 (a : ascii) : string := String a EmptyString.
Definition str2 (a b : ascii) : string := String a (String b EmptyString).

Definition hexdigit (n : N) : ascii :=
  if n <? 10 then ascii_of_N (48 + n) else ascii_of_N (87 + n).

(** ['{0:04x}'.format(n)] for [n < 0x10000]. *)
Definition format_04x (n : N) : string :=
  String (hexdigit (n / 4096))
    (String (hexdigit ((n / 256) mod 16))
       (String (hexdigit ((n / 16) mod 16))
          (String (hexdigit (n mod 16)) EmptyString))).

Definition backslash_u (n : N) : string :=
  String backslash (String "u"%char (format_04x n)).

(** [replace] of [py_encode_basestring_ascii]: the regular expression
    matches the backslash, the double quote and everything outside
    [' '..'~']; [ESCAPE_DCT] holds the short escapes and [\u00XX] for the
    other control characters. *)
Definition escape_char (c : N) : string :=
  if c =? 0x5C then str2 backslash backslash
  else if c =? 0x22 then str2 backslash dquote
  else if (0x20 <=? c) && (c <=? 0x7E) then str1 (ascii_of_N c)
  else if c =? 0x08 then str2 backslash "b"%char
  else if c =? 0x0C then str2 backslash "f"%char
  else if c =? 0x0A then str2 backslash "n"%char
  else if c =? 0x0D then str2 backslash "r"%char
  else if c =? 0x09 then str2 backslash "t"%char
  else if c <? 0x10000 then backslash_u c
  else
    let n := c - 0x10000 in
    let s1 := N.lor 0xD800 (N.land (N.shiftr n 10) 0x3FF) in
    let s2 := N.lor 0xDC00 (N.land n 0x3FF) in
    (backslash_u s1 ++ backslash_u s2)%string.

Fixpoint escape (s : text) : string :=
  match s with
  | [] => EmptyString
  | c :: s' => (escape_char c ++ escape s')%string
  end.

Definition encode_basestring_ascii (s : text) : string :=
  (str1 dquote ++ escape s ++ str1 dquote)%string.

#[local] Set Warnings "-register-all".

Inductive value :=
| Str (s : text)
| Arr (items : list value)
| Obj (items : list (text * value)).

(** [json.dumps(v)] with the default separators [(', ', ': ')] and
    [ensure_ascii=True]. *)
Fixpoint dumps (v : value) : string :=
  match v with
  | Str s => encode_basestring_ascii s
  | Arr items => ("[" ++ String.concat ", " (map dumps items) ++ "]")%string
  | Obj items =>
      ("{" ++ String.concat ", "
         (map (fun kv => match kv with
                         | (k, x) => (encode_basestring_ascii k ++ ": " ++ dumps x)%string
                         end) items) ++ "}")%string
  end.

(** *** Reading a string literal back

    [py_scanstring] of [json.loads], for the literals [json.dumps] writes:
    from the character after the opening quote to the closing quote, one
    character at a time.  It returns the text and what follows the closing
    quote; [None] is [JSONDecodeError]. *)

Definition hexval (a : ascii) : option N :=
  let n := N_of_ascii a in
  if (48 <=? n) && (n <=? 57) then Some (n - 48)
  else if (97 <=? n) && (n <=? 102) then Some (n - 87)
  else if (65 <=? n) && (n <=? 70) then Some (n - 55)
  else None.

Inductive scan_state :=
| Plain
| Escaped
| Hex (digits_left : nat) (acc : N)
| High (hi : N)
| HighEscaped (hi : N)
| HighHex (hi : N) (digits_left : nat) (acc : N).

Definition push (c : N) (r : option (text * string)) : option (text * string) :=
  match r with
  | Some (t, rest) => Some (c :: t, rest)
  | None => None
  end.

Section Scan.

(** The scanner on the rest of the input, in the state given. *)
Variable continue : scan_state -> option (text * string).
Variable rest : string.

Definition scan_plain (n : N) : option (text * string) :=
  if n =? 0x22 then Some ([], rest)
  else if n =? 0x5C then continue Escaped
  else if n <? 0x20 then None
  else push n (continue Plain).

(** A [\uXXXX] that is a high surrogate waits for its low one. *)
Definition scan_unit (uni : N) : option (text * string) :=
  if (0xD800 <=? uni) && (uni <=? 0xDBFF) then continue (High uni)
  else push uni (continue Plain).

Definition scan_escaped (n : N) : option (text * string) :=
  if n =? 0x75 then continue (Hex 3 0)
  else if n =? 0x22 then push 0x22 (continue Plain)
  else if n =? 0x5C then push 0x5C (continue Plain)
  else if n =? 0x2F then push 0x2F (continue Plain)
  else if n =? 0x62 then push 0x08 (continue Plain)
  else if n =? 0x66 then push 0x0C (continue Plain)
  else if n =? 0x6E then push 0x0A (continue Plain)
  else if n =? 0x72 then push 0x0D (continue Plain)
  else if n =? 0x74 then push 0x09 (continue Plain)
  else None.

Definition scan_char (st : scan_state) (a : ascii) : option (text * string) :=
  let n := N_of_ascii a in
  match st with
  | Plain => scan_plain n
  | Escaped => scan_escaped n
  | Hex digits_left acc =>
      match hexval a with
      | None => None
      | Some d =>
          match digits_left with
          | O => scan_unit (acc * 16 + d)
          | S k => continue (Hex k (acc * 16 + d))
          end
      end
  | High hi =>
      if n =? 0x5C then continue (HighEscaped hi) else push hi (scan_plain n)
  | HighEscaped hi =>
      if n =? 0x75 then continue (HighHex hi 3 0) else push hi (scan_escaped n)
  | HighHex hi digits_left acc =>
      match hexval a with
      | None => None
      | Some d =>
          match digits_left with
          | O =>
              let uni2 := acc * 16 + d in
              if (0xDC00 <=? uni2) && (uni2 <=? 0xDFFF) then
                push (0x10000 + N.lor (N.shiftl (hi - 0xD800) 10) (uni2 - 0xDC00))
                     (continue Plain)
              else push hi (scan_unit uni2)
          | S k => continue (HighHex hi k (acc * 16 + d))
          end
      end
  end.

End Scan.

Fixpoint scan (st : scan_state) (s : string) : option (text * string) :=
  match s with
  | EmptyString => None
  | String a rest => scan_char (fun st' => scan st' rest) rest st a
  end.

End Json.

(* ------------------------------------------------------------------ *)
(** ** client.py: reading the stream back *)

Module Client.

Fixpoint strip_prefix (prefix s : string) : option string :=
  match prefix, s with
  | EmptyString, _ => Some s
  | String p prefix', String a s' =>
      if Ascii.eqb p a then strip_prefix prefix' s' else None
  | String _ _, EmptyString => None
  end.

(** [json.loads(decoded_line[5:])["choices"][0]["delta"].get("content")] of
    [_process_stream], for a message of the shape the server writes: the
    text of its [content] field.  [None] stands for every other input. *)
Definition content_of_message (message : string) : option text :=
  let q := Json.str1 Json.dquote in
  let opening :=
    ("data: {" ++ q ++ "choices" ++ q ++ ": [{" ++ q ++ "delta" ++ q ++ ": {"
     ++ q ++ "content" ++ q ++ ": " ++ q)%string in
  let closing := ("}}]}" ++ Json.str2 Json.newline Json.newline)%string in
  match strip_prefix opening message with
  | None => None
  | Some literal =>
      match Json.scan Json.Plain literal with
      | Some (content, rest) => if String.eqb rest closing then Some content else None
      | None => None
      end
  end.

(** [accumulated_text], over the messages of a stream. *)
Fixpoint accumulate (stream : list string) : option text :=
  match stream with
  | [] => Some []
  | message :: stream' =>
      match content_of_message message, accumulate stream' with
      | Some content, Some later => Some (content ++ later)
      | _, _ => None
      end
  end.

End Client.

(* ------------------------------------------------------------------ *)
(** ** database.py: the conversation store *)

Module Database.

(** A row of [conversations].  [metadata] is never read by the server and is
    left out; every writer of the repository stores a [str] as [response]. *)
Record conversation := {
  id : N;
  model_name : text;
  timestamp : text;
  prompt : text;
  response : text
}.

(** A row of [token_usage]; only its foreign key decides how many joined
    rows a conversation has. *)
Record token_usage := {
  conversation_id : N;
  input_tokens : N;
  output_tokens : N;
  total_tokens : N
}.

Record ConversationDB := {
  conversations : list conversation;
  token_usages : list token_usage
}.

(** One row of the SELECT, the [dict(row)] the callers index. *)
Record row := {
  conv : conversation;
  usage : option token_usage
}.

Definition ascii_lower (c : N) : N :=
  if (0x41 <=? c) && (c <=? 0x5A) then c + 32 else c.

(** SQLite's [s LIKE pattern]: [%] is any run of characters, [_] any one
    character, letters of ASCII compare without case.  This is the matcher,
    [patternCompare], on the characters it is given; the SQL function that
    calls it, with operands cut at their first NUL and a bound on the
    pattern, is [Sqlite.like_function]. *)
Fixpoint like (pattern s : text) : bool :=
  match pattern with
  | [] => match s with [] => true | _ :: _ => false end
  | p :: pattern' =>
      if p =? 0x25 then
        (fix any (s : text) : bool :=
           like pattern' s ||
           match s with
           | [] => false
           | _ :: s' => any s'
           end) s
      else
        match s with
        | [] => false
        | c :: s' =>
            ((p =? 0x5F) || (ascii_lower p =? ascii_lower c)) && like pattern' s'
        end
  end.

(** [FROM conversations c LEFT JOIN token_usage t ON c.id = t.conversation_id] *)
Definition left_join (db : ConversationDB) : list row :=
  flat_map
    (fun c =>
       match filter (fun t => id c =? conversation_id t) (token_usages db) with
       | [] => [{| conv := c; usage := None |}]
       | ts => map (fun t => {| conv := c; usage := Some t |}) ts
       end)
    (conversations db).

(** Timestamps are ISO-8601 strings and compare as text. *)
Fixpoint text_ltb (a b : text) : bool :=
  match a, b with
  | _, [] => false
  | [], _ :: _ => true
  | x :: a', y :: b' => (x <? y) || ((x =? y) && text_ltb a' b')
  end.

Definition older (r1 r2 : row) : bool :=
  text_ltb (timestamp (conv r1)) (timestamp (conv r2)).

(** [a] may stand before [b] in most-recent-first order. *)
Definition not_older (a b : row) : Prop := older a b = false.

(** [ORDER BY c.timestamp DESC], as a stable insertion sort (SQLite leaves
    the order of rows with equal timestamps open). *)
Fixpoint insert_desc (r : row) (sorted : list row) : list row :=
  match sorted with
  | [] => [r]
  | r' :: rest => if older r r' then r' :: insert_desc r rest else r :: sorted
  end.

Definition order_by_timestamp_desc (rows : list row) : list row :=
  fold_right insert_desc [] rows.

(** [f"%{query}%"] *)
Definition search_param (query : text) : text := py "%" ++ query ++ py "%".

(** The SELECT on texts without NUL, for a query that sqlite3 binds and a
    pattern within SQLite's bound; [Runtime.search_conversations] is the
    query with its exceptions. *)
Definition search_conversations
    (db : ConversationDB) (query : text) (limit offset : nat) : list row :=
  let matching :=
    filter (fun r => like (search_param query) (prompt (conv r))
                     || like (search_param query) (response (conv r)))
           (left_join db) in
  firstn limit (skipn offset (order_by_timestamp_desc matching)).

End Database.

(* ------------------------------------------------------------------ *)
(** ** tiktoken: the interface the server uses *)

(** An [Encoding] object.  [encode] is [Encoding.encode]; a token id stands
    for a fixed octet string, and [Encoding.decode(tokens, errors)] is
    [b"".join(token_bytes(t) for t in tokens).decode("utf-8", errors)].
    [decode_replace] is [bytes.decode("utf-8", "replace")], which never
    raises. *)
Class Encoding := {
  encode : text -> list N;
  token_bytes : N -> list N;
  decode_replace : list N -> text
}.

Definition decode_bytes {ENCODER : Encoding} (tokens : list N) : list N :=
  flat_map token_bytes tokens.

(** [ENCODER.decode(tokens, "strict")]; [None] is [UnicodeDecodeError]. *)
Definition decode_strict {ENCODER : Encoding} (tokens : list N) : option text :=
  Utf8.decode (decode_bytes tokens).

(** [ENCODER.decode(tokens)], with the default [errors="replace"]. *)
Definition decode_default {ENCODER : Encoding} (tokens : list N) : text :=
  decode_replace (decode_bytes tokens).

(** A tokenizer for examples: one token per octet of the UTF-8 form. *)
Definition byte_level : Encoding := {|
  encode := Utf8.encode;
  token_bytes := fun t => [t];
  decode_replace := fun bs =>
    match Utf8.decode bs with
    | Some t => t
    | None => [0xFFFD]
    end
|}.

(* ------------------------------------------------------------------ *)
(** ** server.py *)

Module Server.

Import Database.
Local Open Scope Q_scope.

Definition MODEL_OUTPUT_SPEEDS : list (text * Q) :=
  [ (py "slow", 15);
    (py "o1", 40);
    (py "deepseek-chat", 38);
    (py "gpt-4o", 86);
    (py "o3-mini", 105);
    (py "deepseek-ai/DeepSeek-R1", 38);
    (py "TA/deepseek-ai/DeepSeek-R1", 76);
    (py "claude-3-5-sonnet", 55);
    (py "claude-3-7-sonnet-20250219", 55);
    (py "gemini-2.0-flash-thinking-exp-01-21", 200);
    (py "gemini-2.0-flash-001", 170);
    (py "gpt-4.5-preview", 14);
    (py "claude-3-opus", 30);
    (py "ark-deepseek-r1-250120", 57 # 2) ].

Definition DEFAULT_OUTPUT_SPEED : Q := 40.

(** [d.get(key, default)] *)
Fixpoint dict_get (d : list (text * Q)) (key : text) (default : Q) : Q :=
  match d with
  | [] => default
  | (k, v) :: d' => if text_eqb k key then v else dict_get d' key default
  end.

Inductive exn :=
| KeyError (key : text)
| IndexError
| ZeroDivisionError
| HTTPException (status_code : N) (detail : text).

Inductive result (A : Type) :=
| Return (a : A)
| Raise (e : exn).
Arguments Return {A}.
Arguments Raise {A}.

(** *** _format_sse_message *)

Definition _format_sse_message (content : text) : string :=
  let data :=
    Json.Obj [(py "choices",
               Json.Arr [Json.Obj [(py "delta",
                                    Json.Obj [(py "content", Json.Str content)])]])] in
  ("data: " ++ Json.dumps data
   ++ Json.str2 Json.newline Json.newline)%string.

(** *** _find_matching_response *)

Definition not_found : exn :=
  HTTPException 404 (py "Model and prompt not found in database").

Definition _find_matching_response
    (db : ConversationDB) (prompt model_name : text) : result text :=
  let conversations := search_conversations db prompt 100 0 in
  let matching_conversations :=
    filter (fun c => str_in (Database.model_name (conv c)) model_name)
           conversations in
  match matching_conversations with
  | [] => Raise not_found
  | first :: _ => Return (response (conv first))
  end.

(** *** _generate_streaming_response *)

(** What [print] writes in debug mode, one constructor per call site. *)
Inductive log_line :=
| LogStarting (model_name : text)
| LogTargetSpeed (output_speed : Q)
| LogEstimatedTotal (total_tokens : nat)
| LogAhead (tokens_ahead actual_delay : Q)
| LogBehind (tokens_behind : Q)
| LogProgress (tokens_sent total_tokens : nat) (percent : Q)
              (elapsed_time expected_tokens : option Q)
| LogComplete
| LogTotalTokens (tokens_sent : nat)
| LogTotalTime (final_time : Q)
| LogAverageSpeed (speed : Q).

Inductive effect :=
| ReadClock (reading : Q)
| Sleep (seconds : Q)
| Yield (message : string)
| Print (line : log_line).

(** The variables the loop reads and writes.  [elapsed_time] and
    [expected_tokens] are unbound until the first iteration. *)
Record loop_state := {
  i : nat;
  tokens_sent : nat;
  token_buffer : list N;
  last_delay : Q;
  elapsed_time : option Q;
  expected_tokens : option Q
}.

Definition of_int (n : nat) : Q := inject_Z (Z.of_nat n).

Definition Qgtb (a b : Q) : bool :=
  match a ?= b with Gt => true | _ => false end.

Definition Qltb (a b : Q) : bool :=
  match a ?= b with Lt => true | _ => false end.

Definition output_speed_of (model_name : text) : Q :=
  let output_speed := dict_get MODEL_OUTPUT_SPEEDS model_name DEFAULT_OUTPUT_SPEED in
  if str_in (py "slow") model_name
  then dict_get MODEL_OUTPUT_SPEEDS (py "slow") DEFAULT_OUTPUT_SPEED
  else output_speed.

Section Generator.

Context {ENCODER : Encoding}.
Variable clock : nat -> Q.
Variable tokens : list N.
Variable output_speed : Q.
Variable debug_mode : bool.
Variable smoothing_factor : Q.

Definition start_time : Q := clock 0.

(** The timing adjustment at the head of an iteration: the effects, and the
    [last_delay] the iteration continues with.  Over exact numbers every
    delay is a number [time.sleep] takes; [Runtime.timing_adjustment]
    computes in doubles and raises where [time.sleep] does. *)
Definition timing_adjustment (st : loop_state) (expected : Q) : list effect * Q :=
  if Qgtb (of_int (tokens_sent st)) expected then
    let tokens_ahead := of_int (tokens_sent st) - expected in
    let raw_delay := tokens_ahead / output_speed in
    let dynamic_delay :=
      (smoothing_factor * last_delay st) + ((1 - smoothing_factor) * raw_delay) in
    let actual_delay := Qmax dynamic_delay 0 in
    (Sleep actual_delay ::
     (if debug_mode && (tokens_sent st mod 10 =? 0)%nat
      then [Print (LogAhead tokens_ahead actual_delay)] else []),
     actual_delay)
  else if Qltb (of_int (tokens_sent st)) (expected - 2) then
    ((if debug_mode && (tokens_sent st mod 10 =? 0)%nat
      then [Print (LogBehind (expected - of_int (tokens_sent st)))] else []),
     last_delay st)
  else ([], last_delay st).

(** One pass through the body of [while i < len(tokens)].  The reading of
    the clock in iteration [i] is call number [i + 1] of [time.time()]. *)
Definition loop_body (st : loop_state) : list effect * loop_state :=
  let now := clock (S (i st)) in
  let elapsed := now - start_time in
  let expected := elapsed * output_speed in
  let (adjust, delay) := timing_adjustment st expected in
  match nth_error tokens (i st) with
  | Some token_id =>
      let buffer := token_buffer st ++ [token_id] in
      match decode_strict buffer with
      | Some chunk_text =>
          (ReadClock now :: adjust ++ [Yield (_format_sse_message chunk_text)],
           {| i := S (i st);
              tokens_sent := (tokens_sent st + List.length buffer)%nat;
              token_buffer := [];
              last_delay := delay;
              elapsed_time := Some elapsed;
              expected_tokens := Some expected |})
      | None =>
          (ReadClock now :: adjust,
           {| i := S (i st);
              tokens_sent := tokens_sent st;
              token_buffer := buffer;
              last_delay := delay;
              elapsed_time := Some elapsed;
              expected_tokens := Some expected |})
      end
  | None =>
      (ReadClock now :: adjust,
       {| i := i st;
          tokens_sent := tokens_sent st;
          token_buffer := token_buffer st;
          last_delay := delay;
          elapsed_time := Some elapsed;
          expected_tokens := Some expected |})
  end.

(** [while i < len(tokens)], unrolled at most [fuel] times.  Besides the
    effects and the final state it returns the state at the head of every
    iteration it ran. *)
Fixpoint while_loop (fuel : nat) (st : loop_state)
  : list effect * list loop_state * loop_state :=
  match fuel with
  | O => ([], [], st)
  | S fuel' =>
      if (i st <? List.length tokens)%nat then
        let (effects, st') := loop_body st in
        match while_loop fuel' st' with
        | (effects', heads, final) => (effects ++ effects', st :: heads, final)
        end
      else ([], [], st)
  end.

Definition initial_state : loop_state :=
  {| i := 0;
     tokens_sent := 0;
     token_buffer := [];
     last_delay := 0;
     elapsed_time := None;
     expected_tokens := None |}.

(** Two invariants of the loop.  [pending_text st remaining]: the octets not
    yet emitted (those of the buffer and of the tokens still to read) decode
    to the text [remaining], and a non-empty buffer is one that failed to
    decode.  [accounted st]: every token read so far is either sent or in
    the buffer. *)
Definition pending_text (st : loop_state) (remaining : text) : Prop :=
  Utf8.decode (decode_bytes (token_buffer st ++ skipn (i st) tokens))
  = Some remaining /\
  (token_buffer st = [] \/ decode_strict (token_buffer st) = None).

Definition accounted (st : loop_state) : Prop :=
  (tokens_sent st + List.length (token_buffer st) = i st)%nat /\
  (i st <= List.length tokens)%nat.

(** "Send any remaining tokens": the effects and the new [tokens_sent].
    Decoding with [errors="replace"] does not raise, so the [except] branch
    and its [print] are never entered. *)
Definition flush (st : loop_state) : list effect * nat :=
  match token_buffer st with
  | [] => ([], tokens_sent st)
  | _ :: _ =>
      ([Yield (_format_sse_message (decode_default (token_buffer st)))],
       (tokens_sent st + List.length (token_buffer st))%nat)
  end.

(** The two debug blocks after the loop. *)
Definition final_logging (st : loop_state) (sent : nat) : list effect * result unit :=
  if negb debug_mode then ([], Return tt)
  else
    let total_tokens := List.length tokens in
    let progress :=
      if (sent mod 20 =? 0)%nat then
        if (total_tokens =? 0)%nat then Raise ZeroDivisionError
        else Return [Print (LogProgress sent total_tokens
                              (of_int sent / of_int total_tokens * 100)
                              (elapsed_time st) (expected_tokens st))]
      else Return [] in
    match progress with
    | Raise e => ([], Raise e)
    | Return printed =>
        let now := clock (S (List.length tokens)) in
        let final_time := now - start_time in
        let head := printed ++ [ReadClock now; Print LogComplete;
                                Print (LogTotalTokens sent);
                                Print (LogTotalTime final_time)] in
        if Qeq_bool final_time 0 then (head, Raise ZeroDivisionError)
        else (head ++ [Print (LogAverageSpeed (of_int sent / final_time))], Return tt)
    end.

End Generator.

(** The generator, run to its end: everything it does, in order, the values
    [tokens_sent] took, and how it ended. *)
Record run := {
  effects : list effect;
  tokens_sent_history : list nat;
  outcome : result unit
}.

(** Over exact numbers, with an [ENCODER.encode] and a [print] that
    return; [Runtime._generate_streaming_response] is the generator with
    the exceptions of its library calls. *)
Definition _generate_streaming_response {ENCODER : Encoding}
    (clock : nat -> Q) (response_text model_name : text)
    (debug_mode : bool) (smoothing_factor : Q) : run :=
  let output_speed := output_speed_of model_name in
  let tokens := encode response_text in
  let total_tokens := List.length tokens in
  let banner :=
    if debug_mode
    then [Print (LogStarting model_name); Print (LogTargetSpeed output_speed);
          Print (LogEstimatedTotal total_tokens)]
    else [] in
  match while_loop clock tokens output_speed debug_mode smoothing_factor
          total_tokens initial_state with
  | (streamed, heads, st) =>
      let (flushed, sent) := flush st in
      let (logged, ending) := final_logging clock tokens debug_mode st sent in
      {| effects := ReadClock (clock 0%nat) :: banner ++ streamed ++ flushed ++ logged;
         tokens_sent_history := map tokens_sent heads ++ [tokens_sent st; sent];
         outcome := ending |}
  end.

(** The state at the head of every iteration of a run. *)
Definition iteration_states {ENCODER : Encoding}
    (clock : nat -> Q) (response_text model_name : text)
    (debug_mode : bool) (smoothing_factor : Q) : list loop_state :=
  let tokens := encode response_text in
  match while_loop clock tokens (output_speed_of model_name) debug_mode
          smoothing_factor (List.length tokens) initial_state with
  | (_, heads, _) => heads
  end.

(** The messages a client receives: the [yield]ed strings, in order. *)
Fixpoint yielded (es : list effect) : list string :=
  match es with
  | [] => []
  | Yield m :: es' => m :: yielded es'
  | _ :: es' => yielded es'
  end.

Fixpoint sleeps (es : list effect) : list Q :=
  match es with
  | [] => []
  | Sleep d :: es' => d :: sleeps es'
  | _ :: es' => sleeps es'
  end.

(** *** chat_completions *)

(** The parsed JSON body; a missing key is [None]. *)
Record message := { content : option text }.

Record request_data := {
  messages : option (list message);
  model : option text;
  debug_mode_field : option bool;
  smoothing_factor_field : option Q
}.

(** [StreamingResponse(generator, media_type=...)]: the generator object is
    created, not started; it is kept as the arguments it was called with. *)
Record StreamingResponse := {
  body_response_text : text;
  body_model_name : text;
  body_debug_mode : bool;
  body_smoothing_factor : Q;
  media_type : text
}.

Definition chat_completions (db : ConversationDB) (data : request_data)
  : result StreamingResponse :=
  match messages data with
  | None => Raise (KeyError (py "messages"))
  | Some [] => Raise IndexError
  | Some (first :: _) =>
      match content first with
      | None => Raise (KeyError (py "content"))
      | Some prompt =>
          match model data with
          | None => Raise (KeyError (py "model"))
          | Some model_name =>
              let debug_mode :=
                match debug_mode_field data with Some b => b | None => false end in
              let smoothing_factor :=
                match smoothing_factor_field data with
                | Some f => f
                | None => 7 # 10
                end in
              match _find_matching_response db prompt model_name with
              | Raise e => Raise e
              | Return response_text =>
                  Return {| body_response_text := response_text;
                            body_model_name := model_name;
                            body_debug_mode := debug_mode;
                            body_smoothing_factor := smoothing_factor;
                            media_type := py "text/event-stream" |}
              end
          end
      end
  end.

(** The body a client of the response reads. *)
Definition body {ENCODER : Encoding} (clock : nat -> Q) (r : StreamingResponse) : run :=
  _generate_streaming_response clock (body_response_text r) (body_model_name r)
    (body_debug_mode r) (body_smoothing_factor r).

(** The request with [smoothing_factor] set to [f], and the response with
    that factor handed to its generator. *)
Definition with_smoothing_factor (data : request_data) (f : Q) : request_data :=
  {| messages := messages data;
     model := model data;
     debug_mode_field := debug_mode_field data;
     smoothing_factor_field := Some f |}.

Definition streaming_with (r : StreamingResponse) (f : Q) : StreamingResponse :=
  {| body_response_text := body_response_text r;
     body_model_name := body_model_name r;
     body_debug_mode := body_debug_mode r;
     body_smoothing_factor := f;
     media_type := media_type r |}.

(** The wire shape as the specification prints it, around the JSON string
    [content_json]: no blank after a colon. *)
Definition spec_wire_shape (content_json : string) : string :=
  let q := Json.str1 Json.dquote in
  ("data: {" ++ q ++ "choices" ++ q ++ ":[{" ++ q ++ "delta" ++ q ++ ":{"
   ++ q ++ "content" ++ q ++ ":" ++ content_json ++ "}}]}"
   ++ Json.str2 Json.newline Json.newline)%string.

(** The wire shape [json.dumps] gives: a blank after every colon. *)
Definition wire_shape (content_json : string) : string :=
  let q := Json.str1 Json.dquote in
  ("data: {" ++ q ++ "choices" ++ q ++ ": [{" ++ q ++ "delta" ++ q ++ ": {"
   ++ q ++ "content" ++ q ++ ": " ++ content_json ++ "}}]}"
   ++ Json.str2 Json.newline Json.newline)%string.

End Server.

(* ------------------------------------------------------------------ *)
(** ** The event loop *)

(** [_generate_streaming_response] is an [async def] generator, so the
    server iterates it on the thread of the event loop, the one thread that
    serves every session of the process.  The generator has no [await]: it
    gives the thread back only where it yields a message.  [time.sleep] is
    an ordinary call, which returns after the given number of seconds and
    keeps the calling thread until then. *)
Module EventLoop.
Import Server.
Local Open Scope Q_scope.

(** What the thread did, in order: which session's generator performed
    which effect. *)
Definition history := list (nat * effect).

Definition alone (session : nat) (es : list effect) : history :=
  map (fun e => (session, e)) es.

(** The effects of one session within a history. *)
Definition of_session (session : nat) (h : history) : list effect :=
  map snd (filter (fun e => Nat.eqb (fst e) session) h).

Definition duration (e : effect) : Q :=
  match e with
  | Sleep seconds => seconds
  | _ => 0
  end.

(** The time at which the thread reaches each effect of a history it begins
    at time [t]. *)
Fixpoint started (t : Q) (h : history) : list (nat * effect * Q) :=
  match h with
  | [] => []
  | e :: h' => (fst e, snd e, t) :: started (t + duration (snd e)) h'
  end.

(** The readings the generators took of the clock are the times at which
    the thread took them. *)
Fixpoint consistent (timed : list (nat * effect * Q)) : bool :=
  match timed with
  | [] => true
  | (_, ReadClock reading, t) :: timed' => Qeq_bool reading t && consistent timed'
  | _ :: timed' => consistent timed'
  end.

(** The times at which the messages of one session go out. *)
Fixpoint yield_times (session : nat) (timed : list (nat * effect * Q)) : list Q :=
  match timed with
  | [] => []
  | (s, Yield _, t) :: timed' =>
      if Nat.eqb s session then t :: yield_times session timed'
      else yield_times session timed'
  | _ :: timed' => yield_times session timed'
  end.

(** The effects of a generator up to and with its next [yield], and the
    rest. *)
Fixpoint until_yield (es : list effect) : list effect * list effect :=
  match es with
  | [] => ([], [])
  | Yield m :: rest => ([Yield m], rest)
  | e :: rest => let (turn, rest') := until_yield rest in (e :: turn, rest')
  end.

(** Two sessions that take turns, each keeping the thread until its next
    [yield]. *)
Fixpoint take_turns (fuel : nat) (es0 es1 : list effect) : history :=
  match fuel with
  | O => []
  | S fuel' =>
      let (turn0, rest0) := until_yield es0 in
      let (turn1, rest1) := until_yield es1 in
      alone 0 turn0 ++ alone 1 turn1 ++ take_turns fuel' rest0 rest1
  end.

End EventLoop.

(* ------------------------------------------------------------------ *)
(** ** Sample inputs *)

Module Samples.
Import Database Server.
Local Open Scope Q_scope.

(** A synthetic clock that stands still. *)
Definition frozen_clock : nat -> Q := fun _ => 0.

(** The clock of a session whose third reading comes 7.5 ms after its
    first two. *)
Definition delayed_clock : nat -> Q :=
  fun n => if (n <? 2)%nat then 0 else 3 # 400.

(** A synthetic clock that advances 10 ms per reading. *)
Definition ticking_clock : nat -> Q := fun n => inject_Z (Z.of_nat n) / 100.

(** "h", e acute, grinning face, "!": one, two, four and one octets. *)
Definition mixed_text : text := [0x68; 0xE9; 0x1F600; 0x21]%N.

(** The loop state of a run on "ab" after "a" went out. *)
Definition after_first_token : loop_state :=
  {| i := 1;
     tokens_sent := 1;
     token_buffer := [];
     last_delay := 0;
     elapsed_time := Some 0;
     expected_tokens := Some 0 |}.

(** The loop state at the head of the first iteration. *)
Definition at_first_token : loop_state := initial_state.

(** A store with one exchange. *)
Definition arithmetic_exchange : conversation :=
  {| id := 1;
     model_name := py "o1";
     timestamp := py "2025-03-01T10:00:00.000000";
     prompt := py "What is 2+2?";
     response := py "The answer is 4" |}.

Definition one_exchange_db : ConversationDB :=
  {| conversations := [arithmetic_exchange]; token_usages := [] |}.

Definition request_for (prompt model_name : text) (factor : option Q) : request_data :=
  {| messages := Some [{| content := Some prompt |}];
     model := Some model_name;
     debug_mode_field := None;
     smoothing_factor_field := factor |}.

End Samples.

(* ------------------------------------------------------------------ *)
(** ** database.py: writing and listing *)

Module Store.
Import Database.

(** The key of an [INSERT] into [conversations].  The column is
    [INTEGER PRIMARY KEY AUTOINCREMENT] and the repository never deletes a
    row, so the key is one more than the largest in the table. *)
Definition lastrowid (db : ConversationDB) : N :=
  fold_right (fun c m => N.max (id c) m) 0 (conversations db) + 1.

(** [save_conversation]; [now] is [datetime.now().isoformat()].  It returns
    the store after the commit and the id of the new row. *)
Definition save_conversation (db : ConversationDB)
    (now model_name prompt response : text) : ConversationDB * N :=
  let conversation_id := lastrowid db in
  ({| conversations :=
        conversations db
        ++ [{| id := conversation_id;
               model_name := model_name;
               timestamp := now;
               prompt := prompt;
               response := response |}];
      token_usages := token_usages db |},
   conversation_id).

(** [save_token_usage].  The connection has [PRAGMA foreign_keys = ON]:
    [None] is the [IntegrityError] of an [INSERT] whose [conversation_id]
    is no conversation's id. *)
Definition save_token_usage (db : ConversationDB) (conversation_id : N)
    (input_tokens output_tokens : N) (total_tokens : option N)
  : option ConversationDB :=
  let total_tokens :=
    match total_tokens with
    | None => input_tokens + output_tokens
    | Some t => t
    end in
  if existsb (fun c => id c =? conversation_id) (conversations db) then
    Some {| conversations := conversations db;
            token_usages :=
              token_usages db
              ++ [{| Database.conversation_id := conversation_id;
                     Database.input_tokens := input_tokens;
                     Database.output_tokens := output_tokens;
                     Database.total_tokens := total_tokens |}] |}
  else None.

(** [get_conversation]: [fetchone] of the join restricted to one id. *)
Definition get_conversation (db : ConversationDB) (conversation_id : N)
  : option row :=
  hd_error (filter (fun r => id (conv r) =? conversation_id) (left_join db)).

Definition get_all_conversations (db : ConversationDB) (limit offset : nat)
  : list row :=
  firstn limit (skipn offset (order_by_timestamp_desc (left_join db))).

(** What the schema promises of a store: ids are a primary key, and every
    [token_usage] row refers to a conversation. *)
Fixpoint distinct (l : list N) : bool :=
  match l with
  | [] => true
  | x :: rest => negb (existsb (N.eqb x) rest) && distinct rest
  end.

Definition well_formed (db : ConversationDB) : bool :=
  distinct (map id (conversations db))
  && forallb (fun t => existsb (fun c => id c =? conversation_id t)
                               (conversations db))
             (token_usages db).

End Store.

(* ------------------------------------------------------------------ *)
(** ** server.py, the rest *)

Module ServerTools.
Import Server.

Definition _get_token_count {ENCODER : Encoding} (text_ : text) : nat :=
  List.length (encode text_).

(** A character of a message that no line reader takes for the end of a
    line: printable ASCII. *)
Definition printable (a : ascii) : bool :=
  let n := N_of_ascii a in (0x20 <=? n) && (n <=? 0x7E).

Fixpoint all_chars (f : ascii -> bool) (s : string) : bool :=
  match s with
  | EmptyString => true
  | String a s' => f a && all_chars f s'
  end.

End ServerTools.

(* ------------------------------------------------------------------ *)
(** ** view_conversations.py *)

Module ViewConversations.

(** [text[:n]] and [text[-n:]], for any integer [n]. *)
Definition slice_to (t : text) (n : Z) : text :=
  if (0 <=? n)%Z then firstn (Z.to_nat n) t
  else firstn (List.length t - Z.to_nat (- n)) t.

Definition slice_last (t : text) (n : Z) : text :=
  if (0 <? n)%Z then skipn (List.length t - Z.to_nat n) t
  else skipn (Z.to_nat (- n)) t.

(** [s.replace] of every newline by the empty string. *)
Definition remove_newlines (t : text) : text :=
  filter (fun c => negb (c =? 0x0A)) t.

(** [format_text]; a [NULL] column is [None]. *)
Definition format_text (text_ : option text) (max_length : Z)
    (truncate_from : text) : text :=
  match text_ with
  | None => []
  | Some [] => []
  | Some t =>
      if (max_length <? Z.of_nat (List.length t))%Z then
        if text_eqb truncate_from (py "start") then
          remove_newlines (slice_to t max_length) ++ py "..."
        else if text_eqb truncate_from (py "end") then
          py "..." ++ remove_newlines (slice_last t max_length)
        else t
      else t
  end.

End ViewConversations.

(* ------------------------------------------------------------------ *)
(** ** llm_client.py *)

Module LLMClient.

Definition claude_models : list text :=
  [py "claude-3-5-sonnet"; py "claude-3-7-sonnet-20250219"; py "claude"].

Definition is_claude_model (model_name : text) : bool :=
  existsb (fun claude_model => str_in claude_model model_name) claude_models.

End LLMClient.

(* ------------------------------------------------------------------ *)
(** ** make_a_request.py *)

Module MakeARequest.

(** How one call of the decorated function ends. *)
Inductive outcome (A : Type) :=
| Returns (result : option A)
| RaisesRequestException
| RaisesException.
Arguments Returns {A}.
Arguments RaisesRequestException {A}.
Arguments RaisesException {A}.

(** What [wrapper] returns: the function's result, [True], [False], or
    [None] when it falls off the end of the loop. *)
Inductive answer (A : Type) :=
| Result (result : A)
| PyTrue
| PyFalse
| PyNone.
Arguments Result {A}.
Arguments PyTrue {A}.
Arguments PyFalse {A}.
Arguments PyNone {A}.

Inductive action :=
| Call (attempt : nat)
| Backoff (seconds : nat)
| Report (attempt : nat)
| ReportMaxRetries
| ReportUnexpected.

(** [min(2 ** attempt, 5)] *)
Definition backoff_of (attempt : nat) : nat := Nat.min (2 ^ attempt) 5.

Section HandleErrors.

Variable A : Type.
(** [func attempt] is how the call made in iteration [attempt] ends.  The
    wrapper is called as the repository calls it, with the model name as
    first positional argument, which its two handlers print as [args[0]],
    and with a [retries] that is not negative. *)
Variable func : nat -> outcome A.
Variable retries : nat.

(** [for attempt in range(retries)], from [attempt] on, with [remaining]
    iterations to go. *)
Fixpoint attempts (remaining attempt : nat) : list action * answer A :=
  match remaining with
  | O => ([], PyNone)
  | S remaining' =>
      match func attempt with
      | Returns (Some result) => ([Call attempt], Result result)
      | Returns None => ([Call attempt], PyTrue)
      | RaisesRequestException =>
          if (attempt =? retries - 1)%nat then
            ([Call attempt; Report attempt; ReportMaxRetries], PyFalse)
          else
            let (later, final) := attempts remaining' (S attempt) in
            (Call attempt :: Report attempt
             :: Backoff (backoff_of attempt) :: later, final)
      | RaisesException => ([Call attempt; ReportUnexpected], PyFalse)
      end
  end.

(** [wrapper] of [handle_errors(func)], called with [retries=retries]. *)
Definition wrapper : list action * answer A := attempts retries 0.

End HandleErrors.

Fixpoint calls (actions : list action) : nat :=
  match actions with
  | [] => 0
  | Call _ :: rest => S (calls rest)
  | _ :: rest => calls rest
  end.

Fixpoint backoffs (actions : list action) : list nat :=
  match actions with
  | [] => []
  | Backoff seconds :: rest => seconds :: backoffs rest
  | _ :: rest => backoffs rest
  end.

End MakeARequest.

(* ------------------------------------------------------------------ *)
(** ** More sample inputs *)

Module MoreSamples.
Import Database Server MakeARequest.

(** A timestamp after that of the one exchange of [Samples.one_exchange_db]. *)
Definition next_day : text := py "2025-03-02T09:30:00.000000".

(** Two lines, 31 characters with the newline. *)
Definition two_lines : text := py "first line" ++ [0x0A] ++ py "and a second, longer".

(** A request that fails twice before it succeeds, and one that always
    fails. *)
Definition third_time_lucky : nat -> outcome bool :=
  fun attempt => if (attempt <? 2)%nat then RaisesRequestException else Returns None.

Definition never_answers : nat -> outcome bool :=
  fun _ => RaisesRequestException.

End MoreSamples.

(* ------------------------------------------------------------------ *)
(** ** SQLite: the LIKE function *)

(** [Database.like] is the matcher of SQLite's [patternCompare].  The SQL
    function around it, [likeFunc], reads both operands as C strings and
    refuses a long pattern. *)
Module Sqlite.
Import Database.

(** [sqlite3_value_text]: a text as a C string, which ends at its first
    NUL. *)
Fixpoint text_value (s : text) : text :=
  match s with
  | [] => []
  | c :: s' => if c =? 0 then [] else c :: text_value s'
  end.

(** [sqlite3_value_bytes]: the octets of the whole bound text. *)
Definition value_bytes (s : text) : N := N.of_nat (List.length (Utf8.encode s)).

Definition SQLITE_MAX_LIKE_PATTERN_LENGTH : N := 50000.

(** "LIKE or GLOB pattern too complex" *)
Definition pattern_too_complex (pattern : text) : bool :=
  SQLITE_MAX_LIKE_PATTERN_LENGTH <? value_bytes pattern.

(** [s LIKE pattern], for a pattern that is not too complex. *)
Definition like_function (pattern s : text) : bool :=
  like (text_value pattern) (text_value s).

(** [c.prompt LIKE ? OR c.response LIKE ?], both [?] bound to [pattern]. *)
Definition where_clause (pattern : text) (c : conversation) : bool :=
  like_function pattern (prompt c) || like_function pattern (response c).

End Sqlite.

(* ------------------------------------------------------------------ *)
(** ** The server on its runtime *)

(** [Database] and [Server] read the program over exact numbers and with
    library calls that always return.  This module reads the same functions
    as CPython runs them: numbers are IEEE 754 doubles, and the calls into
    sqlite3, tiktoken, [time.sleep] and [print] raise where they raise.
    - [sqlite3] refuses to bind a [str] with a lone surrogate
      ([UnicodeEncodeError]); the LIKE function is [Sqlite.like_function],
      and a pattern that is too complex is an [OperationalError] at the
      first row the WHERE clause is evaluated on.
    - [ENCODER.encode(text)] is called with tiktoken's default
      [disallowed_special="all"], which raises [ValueError] for a text that
      contains one of the encoding's special tokens.
    - [time.sleep] raises [ValueError] for NaN and for a negative number and
      [OverflowError] for a number of seconds that is no 64-bit number of
      nanoseconds (CPython 3.11, [_PyTime_FromSecondsObject]).
    - [print] writes to a console in UTF-8, which raises
      [UnicodeEncodeError] for a lone surrogate.
    The request carries a [str] as prompt and as model and a [float] as
    [smoothing_factor] (a JSON number with a fraction or an exponent; an
    integer literal up to 2^53 computes as the double it denotes). *)
Module Runtime.
Import Database Sqlite PrimFloat.

#[local] Set Warnings "-inexact-float".

Inductive exn :=
| KeyError (key : text)
| IndexError
| ZeroDivisionError
| HTTPException (status_code : N) (detail : text)
| ValueError
| OverflowError
| UnicodeEncodeError
| OperationalError.

Inductive result (A : Type) :=
| Return (a : A)
| Raise (e : exn).
Arguments Return {A}.
Arguments Raise {A}.

(** *** database.py *)

Definition search_conversations
    (db : ConversationDB) (query : text) (limit offset : nat)
  : result (list row) :=
  let pattern := search_param query in
  if negb (forallb Utf8.is_scalar query) then Raise UnicodeEncodeError
  else if pattern_too_complex pattern
          && match left_join db with [] => false | _ :: _ => true end
  then Raise OperationalError
  else
    let matching := filter (fun r => where_clause pattern (conv r)) (left_join db) in
    Return (firstn limit (skipn offset (order_by_timestamp_desc matching))).

(** *** _find_matching_response *)

Definition not_found : exn :=
  HTTPException 404 (py "Model and prompt not found in database").

Definition _find_matching_response
    (db : ConversationDB) (prompt model_name : text) : result text :=
  match search_conversations db prompt 100 0 with
  | Raise e => Raise e
  | Return conversations =>
      let matching_conversations :=
        filter (fun c => str_in (Database.model_name (conv c)) model_name)
               conversations in
      match matching_conversations with
      | [] => Raise not_found
      | first :: _ => Return (response (conv first))
      end
  end.

(** *** Numbers *)

Local Open Scope float_scope.

(** [float(n)] for a count [n] of tokens; counts are below 2^53, where the
    conversion is exact and an [int] compares with a [float] as its double
    does. *)
Definition of_int (n : nat) : float :=
  PrimFloat.of_uint63 (Uint63.of_Z (Z.of_nat n)).

(** The value of an entry of [MODEL_OUTPUT_SPEEDS] in arithmetic with a
    [float]: every entry is an [int] or 28.5. *)
Definition float_of_speed (q : Q) : float :=
  PrimFloat.of_uint63 (Uint63.of_Z (Qnum q))
  / PrimFloat.of_uint63 (Uint63.of_Z (Zpos (Qden q))).

Definition output_speed_of (model_name : text) : float :=
  float_of_speed (Server.output_speed_of model_name).

(** [max(d, 0)]: the second argument replaces the first when it is greater. *)
Definition max_0 (d : float) : float := if d <? 0 then 0 else d.

(** [time.sleep(secs)]: the exception it raises, [None] when it sleeps. *)
Definition time_sleep (secs : float) : option exn :=
  if is_nan secs then Some ValueError
  else
    let nanoseconds := secs * 1e9 in
    if (nanoseconds <? -0x1p63) || (0x1p63 <=? nanoseconds) then Some OverflowError
    else if secs <? 0 then Some ValueError
    else None.

(** Whether [time.sleep(secs)] sleeps. *)
Definition accepted (secs : float) : bool :=
  match time_sleep secs with
  | None => true
  | Some _ => false
  end.

(** [print(s)]: whether the console takes [s]. *)
Definition console_writes (s : text) : bool := forallb Utf8.is_scalar s.

(** *** tiktoken *)

(** The special tokens of [cl100k_base]. *)
Definition special_tokens : list text :=
  [py "<|endoftext|>"; py "<|fim_prefix|>"; py "<|fim_middle|>";
   py "<|fim_suffix|>"; py "<|endofprompt|>"].

Definition has_special_token (text_ : text) : bool :=
  existsb (fun token => str_in token text_) special_tokens.

(** [ENCODER.encode(text)]; without a special token in the text it is
    [encode_ordinary], the [encode] of the [Encoding]. *)
Definition ENCODER_encode {ENCODER : Encoding} (text_ : text) : result (list N) :=
  if has_special_token text_ then Raise ValueError else Return (encode text_).

(** *** _generate_streaming_response *)

Inductive log_line :=
| LogStarting (model_name : text)
| LogTargetSpeed (output_speed : float)
| LogEstimatedTotal (total_tokens : nat)
| LogAhead (tokens_ahead actual_delay : float)
| LogBehind (tokens_behind : float)
| LogProgress (tokens_sent total_tokens : nat) (percent : float)
              (elapsed_time expected_tokens : option float)
| LogComplete
| LogTotalTokens (tokens_sent : nat)
| LogTotalTime (final_time : float)
| LogAverageSpeed (speed : float).

(** [Sleep secs] is the call [time.sleep(secs)], whether it sleeps or
    raises. *)
Inductive effect :=
| ReadClock (reading : float)
| Sleep (seconds : float)
| Yield (message : string)
| Print (line : log_line).

Record loop_state := {
  i : nat;
  tokens_sent : nat;
  token_buffer : list N;
  last_delay : float;
  elapsed_time : option float;
  expected_tokens : option float
}.

Section Generator.

Context {ENCODER : Encoding}.
Variable clock : nat -> float.
Variable tokens : list N.
Variable output_speed : float.
Variable debug_mode : bool.
Variable smoothing_factor : float.

Definition start_time : float := clock 0%nat.

Definition timing_adjustment (st : loop_state) (expected : float)
  : list effect * result float :=
  if expected <? of_int (tokens_sent st) then
    let tokens_ahead := of_int (tokens_sent st) - expected in
    let raw_delay := tokens_ahead / output_speed in
    let dynamic_delay :=
      (smoothing_factor * last_delay st) + ((1 - smoothing_factor) * raw_delay) in
    let actual_delay := max_0 dynamic_delay in
    match time_sleep actual_delay with
    | Some e => ([Sleep actual_delay], Raise e)
    | None =>
        (Sleep actual_delay ::
         (if debug_mode && (tokens_sent st mod 10 =? 0)%nat
          then [Print (LogAhead tokens_ahead actual_delay)] else []),
         Return actual_delay)
    end
  else if of_int (tokens_sent st) <? expected - 2 then
    ((if debug_mode && (tokens_sent st mod 10 =? 0)%nat
      then [Print (LogBehind (expected - of_int (tokens_sent st)))] else []),
     Return (last_delay st))
  else ([], Return (last_delay st)).

Definition loop_body (st : loop_state) : list effect * result loop_state :=
  let now := clock (S (i st)) in
  let elapsed := now - start_time in
  let expected := elapsed * output_speed in
  match timing_adjustment st expected with
  | (adjust, Raise e) => (ReadClock now :: adjust, Raise e)
  | (adjust, Return delay) =>
      match nth_error tokens (i st) with
      | Some token_id =>
          let buffer := token_buffer st ++ [token_id] in
          match decode_strict buffer with
          | Some chunk_text =>
              (ReadClock now :: adjust
               ++ [Yield (Server._format_sse_message chunk_text)],
               Return {| i := S (i st);
                         tokens_sent := (tokens_sent st + List.length buffer)%nat;
                         token_buffer := [];
                         last_delay := delay;
                         elapsed_time := Some elapsed;
                         expected_tokens := Some expected |})
          | None =>
              (ReadClock now :: adjust,
               Return {| i := S (i st);
                         tokens_sent := tokens_sent st;
                         token_buffer := buffer;
                         last_delay := delay;
                         elapsed_time := Some elapsed;
                         expected_tokens := Some expected |})
          end
      | None =>
          (ReadClock now :: adjust,
           Return {| i := i st;
                     tokens_sent := tokens_sent st;
                     token_buffer := token_buffer st;
                     last_delay := delay;
                     elapsed_time := Some elapsed;
                     expected_tokens := Some expected |})
      end
  end.

(** [while i < len(tokens)], unrolled at most [fuel] times; it stops where
    an iteration raises. *)
Fixpoint while_loop (fuel : nat) (st : loop_state)
  : list effect * result loop_state :=
  match fuel with
  | O => ([], Return st)
  | S fuel' =>
      if (i st <? List.length tokens)%nat then
        match loop_body st with
        | (effects, Raise e) => (effects, Raise e)
        | (effects, Return st') =>
            let (effects', ending) := while_loop fuel' st' in
            (effects ++ effects', ending)
        end
      else ([], Return st)
  end.

Definition initial_state : loop_state :=
  {| i := 0;
     tokens_sent := 0;
     token_buffer := [];
     last_delay := 0;
     elapsed_time := None;
     expected_tokens := None |}.

Definition flush (st : loop_state) : list effect * nat :=
  match token_buffer st with
  | [] => ([], tokens_sent st)
  | _ :: _ =>
      ([Yield (Server._format_sse_message (decode_default (token_buffer st)))],
       (tokens_sent st + List.length (token_buffer st))%nat)
  end.

Definition final_logging (st : loop_state) (sent : nat) : list effect * result unit :=
  if negb debug_mode then ([], Return tt)
  else
    let total_tokens := List.length tokens in
    let progress :=
      if (sent mod 20 =? 0)%nat then
        if (total_tokens =? 0)%nat then Raise ZeroDivisionError
        else Return [Print (LogProgress sent total_tokens
                              (of_int sent / of_int total_tokens * 100)
                              (elapsed_time st) (expected_tokens st))]
      else Return [] in
    match progress with
    | Raise e => ([], Raise e)
    | Return printed =>
        let now := clock (S (List.length tokens)) in
        let final_time := now - start_time in
        let head := printed ++ [ReadClock now; Print LogComplete;
                                Print (LogTotalTokens sent);
                                Print (LogTotalTime final_time)] in
        if final_time =? 0 then (head, Raise ZeroDivisionError)
        else (head ++ [Print (LogAverageSpeed (of_int sent / final_time))], Return tt)
    end.

End Generator.

Record run := {
  effects : list effect;
  outcome : result unit
}.

Definition _generate_streaming_response {ENCODER : Encoding}
    (clock : nat -> float) (response_text model_name : text)
    (debug_mode : bool) (smoothing_factor : float) : run :=
  let output_speed := output_speed_of model_name in
  let started := ReadClock (clock 0%nat) in
  match ENCODER_encode response_text with
  | Raise e => {| effects := [started]; outcome := Raise e |}
  | Return tokens =>
      let total_tokens := List.length tokens in
      if debug_mode && negb (console_writes model_name) then
        {| effects := [started]; outcome := Raise UnicodeEncodeError |}
      else
        let banner :=
          if debug_mode
          then [Print (LogStarting model_name); Print (LogTargetSpeed output_speed);
                Print (LogEstimatedTotal total_tokens)]
          else [] in
        match while_loop clock tokens output_speed debug_mode smoothing_factor
                total_tokens initial_state with
        | (streamed, Raise e) =>
            {| effects := started :: banner ++ streamed; outcome := Raise e |}
        | (streamed, Return st) =>
            let (flushed, sent) := flush st in
            let (logged, ending) := final_logging clock tokens debug_mode st sent in
            {| effects := started :: banner ++ streamed ++ flushed ++ logged;
               outcome := ending |}
        end
  end.

Fixpoint yielded (es : list effect) : list string :=
  match es with
  | [] => []
  | Yield m :: es' => m :: yielded es'
  | _ :: es' => yielded es'
  end.

(** The arguments of the calls of [time.sleep], in order. *)
Fixpoint sleeps (es : list effect) : list float :=
  match es with
  | [] => []
  | Sleep d :: es' => d :: sleeps es'
  | _ :: es' => sleeps es'
  end.

(** The generator came to its last statement: it returned, or it raised
    [ZeroDivisionError], which only its final statistics do. *)
Definition reaches_end (r : run) : bool :=
  match outcome r with
  | Return _ => true
  | Raise ZeroDivisionError => true
  | Raise _ => false
  end.

(** *** chat_completions *)

Record request_data := {
  messages : option (list Server.message);
  model : option text;
  debug_mode_field : option bool;
  smoothing_factor_field : option float
}.

Record StreamingResponse := {
  body_response_text : text;
  body_model_name : text;
  body_debug_mode : bool;
  body_smoothing_factor : float;
  media_type : text
}.

Definition chat_completions (db : ConversationDB) (data : request_data)
  : result StreamingResponse :=
  match messages data with
  | None => Raise (KeyError (py "messages"))
  | Some [] => Raise IndexError
  | Some (first :: _) =>
      match Server.content first with
      | None => Raise (KeyError (py "content"))
      | Some prompt =>
          match model data with
          | None => Raise (KeyError (py "model"))
          | Some model_name =>
              let debug_mode :=
                match debug_mode_field data with Some b => b | None => false end in
              let smoothing_factor :=
                match smoothing_factor_field data with
                | Some f => f
                | None => 0.7
                end in
              match _find_matching_response db prompt model_name with
              | Raise e => Raise e
              | Return response_text =>
                  Return {| body_response_text := response_text;
                            body_model_name := model_name;
                            body_debug_mode := debug_mode;
                            body_smoothing_factor := smoothing_factor;
                            media_type := py "text/event-stream" |}
              end
          end
      end
  end.

Definition body {ENCODER : Encoding} (clock : nat -> float) (r : StreamingResponse) : run :=
  _generate_streaming_response clock (body_response_text r) (body_model_name r)
    (body_debug_mode r) (body_smoothing_factor r).

End Runtime.

(* ------------------------------------------------------------------ *)
(** ** Sample inputs for the runtime *)

Module RuntimeSamples.
Import Database Runtime PrimFloat.
#[local] Set Warnings "-inexact-float".
Local Open Scope float_scope.

Definition frozen_clock : nat -> float := fun _ => 0.

(** A clock that advances 10 ms per reading. *)
Definition ticking_clock : nat -> float := fun n => of_int n / 100.

(** The loop state of a run on "ab" after "a" went out. *)
Definition after_first_token : loop_state :=
  {| i := 1;
     tokens_sent := 1;
     token_buffer := [];
     last_delay := 0;
     elapsed_time := Some 0;
     expected_tokens := Some 0 |}.

Definition request_for (prompt model_name : text) (debug : option bool)
    (factor : option float) : request_data :=
  {| messages := Some [{| Server.content := Some prompt |}];
     model := Some model_name;
     debug_mode_field := debug;
     smoothing_factor_field := factor |}.


(** A prompt of 49,999 letters. *)
Definition long_prompt : text := repeat 0x61%N (N.to_nat 49999).

(** A store whose one exchange has a NUL in its prompt. *)
Definition nul_exchange : conversation :=
  {| id := 1;
     model_name := py "o1";
     timestamp := py "2025-03-01T10:00:00.000000";
     prompt := py "a" ++ [0%N] ++ py "b";
     response := py "ok" |}.

Definition nul_db : ConversationDB :=
  {| conversations := [nul_exchange]; token_usages := [] |}.

End RuntimeSamples.

(* ================================================================== *)
(** * Properties *)

Ltac Zify.zify_post_hook ::= Z.to_euclidean_division_equations.

(** Turns boolean comparisons on [N] into propositions [lia] reads. *)
Ltac reflect_N :=
  repeat match goal with
  | H : _ && _ = true |- _ => apply andb_true_iff in H; destruct H
  | H : _ || _ = false |- _ => apply orb_false_iff in H; destruct H
  | H : negb _ = true |- _ => apply negb_true_iff in H
  | H : negb _ = false |- _ => apply negb_false_iff in H
  | H : (_ <? _) = true |- _ => apply N.ltb_lt in H
  | H : (_ <? _) = false |- _ => apply N.ltb_ge in H
  | H : (_ <=? _) = true |- _ => apply N.leb_le in H
  | H : (_ <=? _) = false |- _ => apply N.leb_gt in H
  | H : (_ =? _) = true |- _ => apply N.eqb_eq in H
  | H : (_ =? _) = false |- _ => apply N.eqb_neq in H
  end.

(* ------------------------------------------------------------------ *)
(** ** UTF-8 *)

Module Utf8Facts.
Import Utf8.

Example encode_e_acute : encode [0xE9] = [0xC3; 0xA9].
Proof. reflexivity. Qed.

Example encode_grinning_face : encode [0x1F600] = [0xF0; 0x9F; 0x98; 0x80].
Proof. reflexivity. Qed.

Example decode_split_character : decode [0xF0; 0x9F] = None.
Proof. reflexivity. Qed.

Example decode_overlong : decode [0xC0; 0x80] = None.
Proof. reflexivity. Qed.

Example decode_surrogate : decode [0xED; 0xA0; 0x80] = None.
Proof. reflexivity. Qed.

Lemma ltb_true a b : a < b -> (a <? b) = true.
Proof. apply N.ltb_lt. Qed.

Lemma ltb_false a b : b <= a -> (a <? b) = false.
Proof. apply N.ltb_ge. Qed.

Lemma leb_true a b : a <= b -> (a <=? b) = true.
Proof. apply N.leb_le. Qed.

Lemma leb_false a b : b < a -> (a <=? b) = false.
Proof. apply N.leb_gt. Qed.

Lemma is_cont_true b : 0x80 <= b < 0xC0 -> is_cont b = true.
Proof.
  intros [Hlo Hhi]. unfold is_cont.
  now rewrite (leb_true _ _ Hlo), (ltb_true _ _ Hhi).
Qed.

Lemma is_scalar_spec c :
  is_scalar c = true <-> c <= 0x10FFFF /\ (c < 0xD800 \/ 0xDFFF < c).
Proof.
  unfold is_scalar, is_surrogate. split.
  - intros H. apply andb_true_iff in H. destruct H as [H1 H2].
    apply N.leb_le in H1. apply negb_true_iff, andb_false_iff in H2.
    split; [assumption|]. destruct H2 as [H2|H2].
    + left. now apply N.leb_gt in H2.
    + right. now apply N.leb_gt in H2.
  - intros [H1 H2]. apply andb_true_iff. split.
    + now apply N.leb_le.
    + apply negb_true_iff, andb_false_iff.
      destruct H2 as [H2|H2]; [left|right]; now apply N.leb_gt.
Qed.

Lemma step_ascii b : b < 0x80 -> step Start b = Emit b.
Proof. intros H. unfold step. now rewrite (ltb_true _ _ H). Qed.

Lemma step_lead2 b :
  0xC2 <= b < 0xE0 -> step Start b = Continue (Pending 0 (b - 0xC0) 0x80).
Proof.
  intros [Hlo Hhi]. unfold step.
  rewrite ltb_false by lia. rewrite ltb_false by lia. now rewrite ltb_true by lia.
Qed.

Lemma step_lead3 b :
  0xE0 <= b < 0xF0 -> step Start b = Continue (Pending 1 (b - 0xE0) 0x800).
Proof.
  intros [Hlo Hhi]. unfold step.
  do 3 (rewrite ltb_false by lia). now rewrite ltb_true by lia.
Qed.

Lemma step_lead4 b :
  0xF0 <= b < 0xF5 -> step Start b = Continue (Pending 2 (b - 0xF0) 0x10000).
Proof.
  intros [Hlo Hhi]. unfold step.
  do 4 (rewrite ltb_false by lia). now rewrite ltb_true by lia.
Qed.

Lemma step_cont k acc lo b :
  0x80 <= b < 0xC0 ->
  step (Pending (S k) acc lo) b = Continue (Pending k (acc * 64 + (b - 0x80)) lo).
Proof. intros H. unfold step. now rewrite is_cont_true. Qed.

Lemma step_last acc lo b :
  0x80 <= b < 0xC0 ->
  lo <= acc * 64 + (b - 0x80) ->
  is_scalar (acc * 64 + (b - 0x80)) = true ->
  step (Pending 0 acc lo) b = Emit (acc * 64 + (b - 0x80)).
Proof.
  intros H Hlo Hs. unfold step. rewrite is_cont_true by assumption.
  cbv zeta. now rewrite (leb_true _ _ Hlo), Hs.
Qed.

(** Decoding the UTF-8 form of a scalar value gives the value back and goes
    on with what follows. *)
Lemma decode_encode_char c rest :
  is_scalar c = true ->
  decode_from Start (encode_char c ++ rest)
  = option_map (cons c) (decode_from Start rest).
Proof.
  intros Hs. pose proof (proj1 (is_scalar_spec c) Hs) as [Hmax Hsur].
  unfold encode_char.
  destruct (c <? 0x80) eqn:H1; [|destruct (c <? 0x800) eqn:H2;
    [|destruct (c <? 0x10000) eqn:H3]]; reflect_N.
  - cbn [app decode_from]. now rewrite step_ascii.
  - cbn [app decode_from].
    rewrite step_lead2 by lia.
    replace (0xC0 + c / 64 - 0xC0) with (c / 64) by lia.
    assert (E : c / 64 * 64 + (0x80 + c mod 64 - 0x80) = c) by lia.
    rewrite step_last; rewrite ?E; try assumption; try lia.
    reflexivity.
  - cbn [app decode_from].
    rewrite step_lead3 by lia.
    rewrite step_cont by lia.
    replace (0xE0 + c / 4096 - 0xE0) with (c / 4096) by lia.
    assert (E : (c / 4096 * 64 + (0x80 + (c / 64) mod 64 - 0x80)) * 64
                + (0x80 + c mod 64 - 0x80) = c) by lia.
    rewrite step_last; rewrite ?E; try assumption; try lia.
    reflexivity.
  - cbn [app decode_from].
    rewrite step_lead4 by lia.
    do 2 (rewrite step_cont by lia).
    replace (0xF0 + c / 262144 - 0xF0) with (c / 262144) by lia.
    assert (E : ((c / 262144 * 64 + (0x80 + (c / 4096) mod 64 - 0x80)) * 64
                 + (0x80 + (c / 64) mod 64 - 0x80)) * 64
                + (0x80 + c mod 64 - 0x80) = c) by lia.
    rewrite step_last; rewrite ?E; try assumption; try lia.
    reflexivity.
Qed.

(** [bytes.decode] inverts [str.encode] on texts of scalar values. *)
Lemma decode_encode t :
  forallb is_scalar t = true -> decode (encode t) = Some t.
Proof.
  unfold decode, encode. induction t as [|c t IH]; intros H.
  - reflexivity.
  - cbn [forallb] in H. apply andb_true_iff in H. destruct H as [Hc Ht].
    cbn [flat_map]. rewrite decode_encode_char by assumption.
    now rewrite IH.
Qed.

(** UTF-8 is a prefix code: once a prefix of the octets decodes, the rest
    is decoded on its own. *)
Lemma decode_from_app a : forall st ta b,
  decode_from st a = Some ta ->
  decode_from st (a ++ b) = option_map (app ta) (decode_from Start b).
Proof.
  induction a as [|x a IH]; intros st ta b H; cbn [decode_from app] in *.
  - destruct st; [|discriminate]. injection H as <-.
    now destruct (decode_from Start b).
  - destruct (step st x) as [|c|st']; [discriminate| |now apply IH].
    destruct (decode_from Start a) as [ta'|] eqn:E; [|discriminate].
    cbn in H. injection H as <-.
    rewrite (IH _ _ b E). now destruct (decode_from Start b).
Qed.

Lemma decode_app a b ta :
  decode a = Some ta -> decode (a ++ b) = option_map (app ta) (decode b).
Proof. apply decode_from_app. Qed.

End Utf8Facts.

(* ------------------------------------------------------------------ *)
(** ** JSON strings and the messages of the stream *)

Module JsonFacts.
Import Json.

Lemma hexval_hexdigit d : d < 16 -> hexval (hexdigit d) = Some d.
Proof.
  intros H.
  destruct d as [|p]; [reflexivity|].
  do 4 (destruct p as [p|p|]; try reflexivity; try lia).
Qed.

Lemma lor_shiftl_low a b k : b < 2 ^ k -> N.lor (N.shiftl a k) b = a * 2 ^ k + b.
Proof.
  intros Hb. apply N.bits_inj. intros m. rewrite N.lor_spec.
  destruct (N.lt_ge_cases m k) as [Hlt|Hge].
  - rewrite N.shiftl_spec_low by assumption. cbn [orb].
    rewrite <- (N.mod_pow2_bits_low (a * 2 ^ k + b) k m) by assumption.
    rewrite N.add_comm, N.Div0.mod_add, N.mod_small by assumption. reflexivity.
  - rewrite N.shiftl_spec_high' by assumption.
    rewrite <- (N.mod_small b (2 ^ k)) at 1 by assumption.
    rewrite N.mod_pow2_bits_high by assumption. rewrite orb_false_r.
    replace m with (m - k + k) at 2 by lia.
    rewrite <- N.div_pow2_bits.
    rewrite N.div_add_l by (apply N.pow_nonzero; lia).
    rewrite N.div_small by assumption. now rewrite N.add_0_r.
Qed.


Lemma append_assoc (a b c : string) : ((a ++ b) ++ c = a ++ (b ++ c))%string.
Proof. induction a as [|x a IH]; cbn; [reflexivity|now rewrite IH]. Qed.

Lemma format_04x_value n :
  n < 65536 ->
  (((0 * 16 + n / 4096) * 16 + (n / 256) mod 16) * 16 + (n / 16) mod 16) * 16
  + n mod 16 = n.
Proof. lia. Qed.

Lemma scan_hex4 n s :
  n < 65536 ->
  scan (Hex 3 0) (format_04x n ++ s)%string = scan_unit (fun st => scan st s) n.
Proof.
  intros Hn. unfold format_04x. cbn [append scan scan_char].
  rewrite !hexval_hexdigit by lia.
  now rewrite format_04x_value.
Qed.

Lemma scan_high_hex4 hi n s :
  n < 65536 ->
  scan (HighHex hi 3 0) (format_04x n ++ s)%string
  = if (0xDC00 <=? n) && (n <=? 0xDFFF)
    then push (0x10000 + N.lor (N.shiftl (hi - 0xD800) 10) (n - 0xDC00))
              (scan Plain s)
    else push hi (scan_unit (fun st => scan st s) n).
Proof.
  intros Hn. unfold format_04x. cbn [append scan scan_char].
  rewrite !hexval_hexdigit by lia. cbv zeta.
  now rewrite format_04x_value.
Qed.

Lemma scan_backslash_u n s :
  n < 65536 ->
  scan Plain (backslash_u n ++ s)%string = scan_unit (fun st => scan st s) n.
Proof.
  intros Hn. unfold backslash_u. cbn [append scan scan_char].
  change (scan_plain _ _ (N_of_ascii backslash)) with (scan (Hex 3 0) (format_04x n ++ s)%string).
  now apply scan_hex4.
Qed.


Lemma surrogates_of c :
  0x10000 <= c <= 0x10FFFF ->
  let n := c - 0x10000 in
  let s1 := N.lor 0xD800 (N.land (N.shiftr n 10) 0x3FF) in
  let s2 := N.lor 0xDC00 (N.land n 0x3FF) in
  s1 = 0xD800 + n / 1024 /\ s2 = 0xDC00 + n mod 1024 /\
  0x10000 + N.lor (N.shiftl (s1 - 0xD800) 10) (s2 - 0xDC00) = c.
Proof.
  intros Hc n s1 s2.
  assert (Hn : n < 1048576) by (unfold n; lia).
  assert (E1 : s1 = 0xD800 + n / 1024).
  { unfold s1. change 0x3FF with (N.ones 10).
    rewrite N.land_ones, N.shiftr_div_pow2.
    change 0xD800 with (N.shiftl 54 10) at 1.
    rewrite lor_shiftl_low by (apply N.mod_lt; discriminate).
    change (2 ^ 10) with 1024. lia. }
  assert (E2 : s2 = 0xDC00 + n mod 1024).
  { unfold s2. change 0x3FF with (N.ones 10). rewrite N.land_ones.
    change 0xDC00 with (N.shiftl 55 10) at 1.
    rewrite lor_shiftl_low by (apply N.mod_lt; discriminate).
    change (2 ^ 10) with 1024. lia. }
  split; [exact E1|]. split; [exact E2|].
  rewrite E1, E2.
  replace (0xD800 + n / 1024 - 0xD800) with (n / 1024) by lia.
  replace (0xDC00 + n mod 1024 - 0xDC00) with (n mod 1024) by lia.
  rewrite lor_shiftl_low by (apply N.mod_lt; discriminate).
  change (2 ^ 10) with 1024. unfold n. lia.
Qed.

Lemma scan_escape_char c s :
  Utf8.is_scalar c = true ->
  scan Plain (escape_char c ++ s)%string = push c (scan Plain s).
Proof.
  intros Hs. apply Utf8Facts.is_scalar_spec in Hs. destruct Hs as [Hmax Hsur].
  unfold escape_char.
  repeat match goal with
         | |- context [if ?b then _ else _] =>
             match b with
             | context [c] => destruct b eqn:?
             end
         end; reflect_N; subst; try reflexivity.
  - (* printable ASCII *)
    unfold str1. cbn [append scan scan_char].
    rewrite N_ascii_embedding by lia. unfold scan_plain.
    rewrite (proj2 (N.eqb_neq _ _)) by assumption.
    rewrite (proj2 (N.eqb_neq _ _)) by assumption.
    now rewrite (proj2 (N.ltb_ge _ _)) by lia.
  - (* \uXXXX *)
    rewrite scan_backslash_u by lia. unfold scan_unit.
    replace ((0xD800 <=? c) && (c <=? 0xDBFF)) with false; [reflexivity|].
    symmetry. apply andb_false_iff.
    destruct Hsur; [left; apply N.leb_gt|right; apply N.leb_gt]; lia.
  - (* a surrogate pair *)
    cbv zeta.
    destruct (surrogates_of c) as (E1 & E2 & Ec); [lia|]. cbv zeta in E1, E2, Ec.
    set (s1 := N.lor 0xD800 _) in *. set (s2 := N.lor 0xDC00 _) in *.
    assert (H1 : 0xD800 <= s1 <= 0xDBFF) by lia.
    assert (H2 : 0xDC00 <= s2 <= 0xDFFF) by lia.
    rewrite append_assoc, scan_backslash_u by lia. unfold scan_unit.
    replace ((0xD800 <=? s1) && (s1 <=? 0xDBFF)) with true
      by (symmetry; apply andb_true_iff; split; apply N.leb_le; lia).
    unfold backslash_u. cbn [append scan scan_char].
    change (if N_of_ascii backslash =? 92 then ?x else _) with x.
    cbn [append scan scan_char].
    change (if N_of_ascii "u" =? 117 then ?x else _) with x.
    rewrite scan_high_hex4 by lia.
    replace ((0xDC00 <=? s2) && (s2 <=? 0xDFFF)) with true
      by (symmetry; apply andb_true_iff; split; apply N.leb_le; lia).
    now rewrite Ec.
Qed.

(** Reading a written literal gives the text back. *)
Lemma scan_escape t : forall s,
  forallb Utf8.is_scalar t = true ->
  scan Plain (escape t ++ String dquote s)%string = Some (t, s).
Proof.
  induction t as [|c t IH]; intros s H; cbn [escape forallb] in *.
  - reflexivity.
  - apply andb_true_iff in H. destruct H as [Hc Ht].
    rewrite append_assoc, scan_escape_char by assumption.
    now rewrite IH.
Qed.

(** A message is its opening, the escaped chunk text and its closing. *)
Lemma format_sse_message_parts content :
  let q := str1 dquote in
  Server._format_sse_message content
  = (("data: {" ++ q ++ "choices" ++ q ++ ": [{" ++ q ++ "delta" ++ q ++ ": {"
      ++ q ++ "content" ++ q ++ ": " ++ q)
     ++ escape content
     ++ String dquote ("}}]}" ++ str2 newline newline))%string.
Proof.
  cbv zeta. unfold Server._format_sse_message. cbv zeta.
  cbn [dumps map String.concat]. unfold encode_basestring_ascii.
  generalize (escape content). intros s.
  vm_compute (str1 dquote ++ escape (py "choices") ++ str1 dquote)%string.
  vm_compute (str1 dquote ++ escape (py "delta") ++ str1 dquote)%string.
  vm_compute (str1 dquote ++ escape (py "content") ++ str1 dquote)%string.
  unfold str1, str2, dquote, newline.
  cbn [append]. rewrite !append_assoc. cbn [append]. reflexivity.
Qed.

Lemma strip_prefix_app prefix s :
  Client.strip_prefix prefix (prefix ++ s)%string = Some s.
Proof.
  induction prefix as [|a prefix IH]; cbn [append Client.strip_prefix].
  - now destruct s.
  - now rewrite Ascii.eqb_refl.
Qed.

(** The client reads out of a message the chunk text the server framed. *)
Lemma content_of_format_sse_message content :
  forallb Utf8.is_scalar content = true ->
  Client.content_of_message (Server._format_sse_message content) = Some content.
Proof.
  intros H. rewrite format_sse_message_parts. cbv zeta.
  unfold Client.content_of_message. cbv zeta.
  rewrite strip_prefix_app, scan_escape by assumption.
  now rewrite String.eqb_refl.
Qed.

Lemma forallb_concat {A} (f : A -> bool) (ls : list (list A)) :
  forallb f (List.concat ls) = forallb (forallb f) ls.
Proof.
  induction ls as [|l ls IH]; cbn [List.concat forallb]; [reflexivity|].
  now rewrite forallb_app, IH.
Qed.

Lemma accumulate_format_sse_messages chunks :
  forallb (forallb Utf8.is_scalar) chunks = true ->
  Client.accumulate (map Server._format_sse_message chunks)
  = Some (List.concat chunks).
Proof.
  induction chunks as [|c chunks IH]; intros H; cbn [map Client.accumulate forallb] in *.
  - reflexivity.
  - apply andb_true_iff in H. destruct H as [Hc Hcs].
    now rewrite content_of_format_sse_message, IH.
Qed.

End JsonFacts.

(* ------------------------------------------------------------------ *)
(** ** The streaming generator *)

Module GeneratorFacts.
Import Server.

Lemma yielded_app es1 es2 : yielded (es1 ++ es2) = yielded es1 ++ yielded es2.
Proof.
  induction es1 as [|e es1 IH]; [reflexivity|].
  destruct e; cbn [app yielded]; now rewrite IH.
Qed.

Lemma sleeps_app es1 es2 : sleeps (es1 ++ es2) = sleeps es1 ++ sleeps es2.
Proof.
  induction es1 as [|e es1 IH]; [reflexivity|].
  destruct e; cbn [app sleeps]; now rewrite IH.
Qed.

Lemma decode_bytes_app {ENCODER : Encoding} a b :
  decode_bytes (a ++ b) = decode_bytes a ++ decode_bytes b.
Proof. apply flat_map_app. Qed.

Lemma nth_error_skipn {A} (l : list A) n x :
  nth_error l n = Some x -> skipn n l = x :: skipn (S n) l.
Proof.
  revert l. induction n as [|n IH]; intros [|y l] H; try discriminate.
  - now injection H as ->.
  - cbn [skipn]. now rewrite (IH l H).
Qed.

Lemma nth_error_in_range {A} (l : list A) n :
  (n < List.length l)%nat -> exists x, nth_error l n = Some x.
Proof.
  intros H. destruct (nth_error l n) eqn:E; [eauto|].
  apply nth_error_None in E. lia.
Qed.

Section Loop.

Context {ENCODER : Encoding}.
Variable clock : nat -> Q.
Variable tokens : list N.
Variable output_speed : Q.
Variable debug_mode : bool.
Variable smoothing_factor : Q.

Local Abbreviation timing := (timing_adjustment output_speed debug_mode smoothing_factor).
Local Abbreviation body := (loop_body clock tokens output_speed debug_mode smoothing_factor).
Local Abbreviation loop := (while_loop clock tokens output_speed debug_mode smoothing_factor).

Lemma timing_yields_nothing st expected : yielded (fst (timing st expected)) = [].
Proof.
  unfold timing_adjustment.
  repeat match goal with
         | |- context [if ?b then _ else _] => destruct b
         end; reflexivity.
Qed.

(** What an iteration does to the token cursor and the buffer, whatever the
    clock says. *)
Lemma loop_body_token st token_id :
  nth_error tokens (i st) = Some token_id ->
  let buffer := token_buffer st ++ [token_id] in
  let (es, st') := body st in
  i st' = S (i st) /\
  match decode_strict buffer with
  | Some chunk_text =>
      yielded es = [_format_sse_message chunk_text] /\
      token_buffer st' = [] /\
      tokens_sent st' = (tokens_sent st + List.length buffer)%nat
  | None =>
      yielded es = [] /\ token_buffer st' = buffer /\
      tokens_sent st' = tokens_sent st
  end.
Proof.
  intros Hnth. unfold loop_body. cbv zeta.
  pose proof (timing_yields_nothing st
                ((clock (S (i st)) - start_time clock) * output_speed)%Q) as Hy.
  destruct (timing _ _) as [adjust delay]. cbn [fst] in Hy.
  rewrite Hnth.
  destruct (decode_strict (token_buffer st ++ [token_id])) as [chunk|].
  - cbn [i token_buffer tokens_sent yielded]. rewrite yielded_app, Hy. auto.
  - cbn [i token_buffer tokens_sent yielded]. auto.
Qed.

(** *** The loop runs to the end of the token list *)

Lemma while_loop_exit fuel : forall st es heads final,
  loop fuel st = (es, heads, final) ->
  (i st + fuel = List.length tokens)%nat ->
  i final = List.length tokens.
Proof.
  induction fuel as [|fuel IH]; intros st es heads final Hrun Hfuel;
    cbn [while_loop] in Hrun.
  - injection Hrun as _ _ <-. lia.
  - destruct (Nat.ltb_spec (i st) (List.length tokens)) as [Hlt|Hge]; [|lia].
    destruct (nth_error_in_range tokens (i st) Hlt) as [t Ht].
    pose proof (loop_body_token st t Ht) as Hbody. cbv zeta in Hbody.
    destruct (body st) as [es1 st1]. destruct Hbody as [Hi _].
    destruct (loop fuel st1) as [[es2 heads2] final2] eqn:Hrest.
    injection Hrun as _ _ <-.
    apply (IH _ _ _ _ Hrest). lia.
Qed.

(** The effects of the loop are those of its iterations, in order. *)
Lemma while_loop_effects fuel : forall st es heads final,
  loop fuel st = (es, heads, final) ->
  es = flat_map (fun head => fst (body head)) heads.
Proof.
  induction fuel as [|fuel IH]; intros st es heads final Hrun;
    cbn [while_loop] in Hrun.
  - now injection Hrun as <- <- _.
  - destruct (i st <? List.length tokens)%nat; [|now injection Hrun as <- <- _].
    destruct (body st) as [es1 st1] eqn:Hbody.
    destruct (loop fuel st1) as [[es2 heads2] final2] eqn:Hrest.
    injection Hrun as <- <- _. cbn [flat_map]. rewrite Hbody. cbn [fst].
    now rewrite (IH _ _ _ _ Hrest).
Qed.

(** *** Lossless replay *)

Lemma while_loop_lossless fuel : forall st es heads final remaining,
  loop fuel st = (es, heads, final) ->
  (i st + fuel = List.length tokens)%nat ->
  pending_text tokens st remaining ->
  exists chunks,
    yielded es = map _format_sse_message chunks /\
    List.concat chunks = remaining /\
    token_buffer final = [].
Proof.
  induction fuel as [|fuel IH]; intros st es heads final remaining Hrun Hfuel
    [Hdec Hbuf]; cbn [while_loop] in Hrun.
  - injection Hrun as <- _ <-. exists [].
    rewrite Nat.add_0_r in Hfuel.
    rewrite Hfuel, skipn_all, app_nil_r in Hdec.
    destruct Hbuf as [Hbuf|Hbuf].
    + rewrite Hbuf in Hdec. cbn in Hdec. injection Hdec as <-. auto.
    + unfold decode_strict in Hbuf. congruence.
  - destruct (Nat.ltb_spec (i st) (List.length tokens)) as [Hlt|Hge]; [|lia].
    destruct (nth_error_in_range tokens (i st) Hlt) as [t Ht].
    pose proof (loop_body_token st t Ht) as Hbody. cbv zeta in Hbody.
    destruct (body st) as [es1 st1]. destruct Hbody as [Hi Hbody].
    destruct (loop fuel st1) as [[es2 heads2] final2] eqn:Hrest.
    injection Hrun as <- _ <-.
    rewrite (nth_error_skipn _ _ _ Ht) in Hdec.
    change (t :: skipn (S (i st)) tokens)
      with ([t] ++ skipn (S (i st)) tokens) in Hdec.
    rewrite app_assoc, decode_bytes_app in Hdec.
    destruct (decode_strict (token_buffer st ++ [t])) as [chunk|] eqn:Hchunk.
    + destruct Hbody as (Hy & Hb & _).
      unfold decode_strict in Hchunk.
      rewrite (Utf8Facts.decode_app _ _ _ Hchunk) in Hdec.
      destruct (Utf8.decode (decode_bytes (skipn (S (i st)) tokens)))
        as [rest|] eqn:Hrem; [|discriminate].
      cbn in Hdec. injection Hdec as <-.
      destruct (IH st1 es2 heads2 final2 rest Hrest) as (chunks & Hys & Hcat & Hfin).
      * lia.
      * split; [|left; assumption]. rewrite Hb, Hi. exact Hrem.
      * exists (chunk :: chunks). rewrite yielded_app, Hy, Hys.
        cbn [map List.concat app]. rewrite Hcat. auto.
    + destruct Hbody as (Hy & Hb & _).
      destruct (IH st1 es2 heads2 final2 remaining Hrest) as (chunks & Hys & Hcat & Hfin).
      * lia.
      * split; [|right; rewrite Hb; assumption].
        rewrite Hb, Hi, decode_bytes_app. exact Hdec.
      * exists chunks. rewrite yielded_app, Hy, Hys. auto.
Qed.

(** *** Progress of [tokens_sent] *)

Lemma while_loop_progress fuel : forall st es heads final,
  loop fuel st = (es, heads, final) ->
  accounted tokens st ->
  accounted tokens final /\
  (tokens_sent st <= tokens_sent final)%nat /\
  StronglySorted le (map tokens_sent heads ++ [tokens_sent final]) /\
  Forall (fun n => (tokens_sent st <= n <= tokens_sent final)%nat)
         (map tokens_sent heads).
Proof.
  induction fuel as [|fuel IH]; intros st es heads final Hrun Hacc;
    cbn [while_loop] in Hrun.
  - injection Hrun as _ <- <-. cbn. repeat split; try apply Hacc; auto.
    repeat constructor.
  - destruct (Nat.ltb_spec (i st) (List.length tokens)) as [Hlt|Hge].
    + destruct (nth_error_in_range tokens (i st) Hlt) as [t Ht].
      pose proof (loop_body_token st t Ht) as Hbody. cbv zeta in Hbody.
      destruct (body st) as [es1 st1]. destruct Hbody as [Hi Hbody].
      destruct (loop fuel st1) as [[es2 heads2] final2] eqn:Hrest.
      injection Hrun as _ <- <-.
      destruct Hacc as [Hsum Hle].
      assert (Hacc1 : accounted tokens st1 /\ (tokens_sent st <= tokens_sent st1)%nat).
      { unfold accounted.
        destruct (decode_strict (token_buffer st ++ [t]));
          destruct Hbody as (_ & Hb & Hts); rewrite Hb, Hts, Hi;
          rewrite ?length_app; cbn [List.length]; lia. }
      destruct Hacc1 as [Hacc1 Hmono].
      destruct (IH _ _ _ _ Hrest Hacc1) as (Hfin & Hle1 & Hsorted & Hall).
      split; [assumption|]. split; [lia|]. split.
      * cbn [map app]. constructor; [assumption|].
        apply Forall_app. split.
        -- eapply Forall_impl; [|exact Hall]. cbn. intros; lia.
        -- constructor; [lia|constructor].
      * cbn [map]. constructor; [lia|].
        eapply Forall_impl; [|exact Hall]. cbn. intros; lia.
    + injection Hrun as _ <- <-. cbn. repeat split; try apply Hacc; auto.
      repeat constructor.
Qed.

End Loop.

(** *** The stream does not depend on the clock, the pace or the debug flag *)

Lemma while_loop_yields_same {ENCODER : Encoding} tokens
    clock1 speed1 debug1 factor1 clock2 speed2 debug2 factor2 fuel :
  forall st1 st2,
    i st1 = i st2 -> token_buffer st1 = token_buffer st2 ->
    match while_loop clock1 tokens speed1 debug1 factor1 fuel st1,
          while_loop clock2 tokens speed2 debug2 factor2 fuel st2 with
    | (es1, _, final1), (es2, _, final2) =>
        yielded es1 = yielded es2 /\ token_buffer final1 = token_buffer final2
    end.
Proof.
  induction fuel as [|fuel IH]; intros st1 st2 Hi Hb; cbn [while_loop].
  - auto.
  - rewrite <- Hi.
    destruct (Nat.ltb_spec (i st1) (List.length tokens)) as [Hlt|Hge]; [|auto].
    destruct (nth_error_in_range tokens (i st1) Hlt) as [t Ht].
    pose proof (loop_body_token clock1 tokens speed1 debug1 factor1 st1 t Ht) as B1.
    assert (Ht2 : nth_error tokens (i st2) = Some t) by now rewrite <- Hi.
    pose proof (loop_body_token clock2 tokens speed2 debug2 factor2 st2 t Ht2) as B2.
    cbv zeta in B1, B2. rewrite <- Hb in B2.
    destruct (loop_body clock1 _ _ _ _ st1) as [e1 s1].
    destruct (loop_body clock2 _ _ _ _ st2) as [e2 s2].
    destruct B1 as [I1 B1], B2 as [I2 B2].
    assert (Hnext : i s1 = i s2 /\ token_buffer s1 = token_buffer s2
                    /\ yielded e1 = yielded e2).
    { destruct (decode_strict (token_buffer st1 ++ [t]));
        destruct B1 as (-> & -> & _), B2 as (-> & -> & _); repeat split; congruence. }
    destruct Hnext as (Hi' & Hb' & Hy).
    specialize (IH s1 s2 Hi' Hb').
    destruct (while_loop clock1 _ _ _ _ fuel s1) as [[es1 h1] f1].
    destruct (while_loop clock2 _ _ _ _ fuel s2) as [[es2 h2] f2].
    destruct IH as [IHy IHb]. rewrite !yielded_app, Hy, IHy. auto.
Qed.

Lemma final_logging_yields_nothing clock tokens debug st sent :
  yielded (fst (final_logging clock tokens debug st sent)) = [].
Proof.
  unfold final_logging. destruct debug; cbn [negb fst]; [|reflexivity].
  destruct (sent mod 20 =? 0)%nat; [destruct (List.length tokens =? 0)%nat|];
    cbn [fst]; try reflexivity;
    destruct (Qeq_bool _ _); cbn [fst]; rewrite ?yielded_app; reflexivity.
Qed.

Lemma flush_yields {ENCODER : Encoding} st :
  yielded (fst (flush st))
  = match token_buffer st with
    | [] => []
    | _ :: _ => [_format_sse_message (decode_default (token_buffer st))]
    end.
Proof. unfold flush. now destruct (token_buffer st). Qed.

(** The messages of a run, in terms of the loop alone. *)
Lemma generator_yields {ENCODER : Encoding} clock response_text model_name debug factor :
  yielded (effects (_generate_streaming_response clock response_text model_name
                      debug factor))
  = match while_loop clock (encode response_text) (output_speed_of model_name)
            debug factor (List.length (encode response_text)) initial_state with
    | (streamed, _, st) => yielded streamed ++ yielded (fst (flush st))
    end.
Proof.
  unfold _generate_streaming_response.
  destruct (while_loop _ _ _ _ _ _ _) as [[streamed heads] st].
  pose proof (final_logging_yields_nothing clock (encode response_text) debug st
                (snd (flush st))) as Hlog.
  destruct (flush st) as [flushed sent]. cbn [snd fst] in *.
  destruct (final_logging _ _ _ _ _) as [logged ending]. cbn [fst effects] in *.
  cbn [yielded]. rewrite !yielded_app, Hlog, app_nil_r.
  now destruct debug.
Qed.

End GeneratorFacts.

(* ------------------------------------------------------------------ *)
(** ** The claims about the generator *)

Module GeneratorClaims.
Import Server GeneratorFacts.

Lemma StronglySorted_snoc (l : list nat) a b :
  StronglySorted le (l ++ [a]) -> (a <= b)%nat -> StronglySorted le (l ++ [a; b]).
Proof.
  induction l as [|x l IH]; intros Hs Hab; cbn [app] in *.
  - repeat constructor. assumption.
  - inversion Hs as [|? ? Hs' Hall]; subst. constructor; [auto|].
    apply Forall_app in Hall. destruct Hall as [Hl Ha].
    apply Forall_app. split; [assumption|].
    inversion Ha; subst. repeat constructor; lia.
Qed.

(** C8 (monotonic progress).  The values [tokens_sent] takes during a run,
    from the first loop head to the end of the generator, never decrease and
    never exceed [total_tokens]. *)
Theorem tokens_sent_monotone {ENCODER : Encoding} clock (T model_name : text)
    debug_mode smoothing_factor :
  let r := _generate_streaming_response clock T model_name
             debug_mode smoothing_factor in
  StronglySorted le (tokens_sent_history r) /\
  Forall (fun n => (n <= List.length (encode T))%nat) (tokens_sent_history r).
Proof.
  cbv zeta. unfold _generate_streaming_response.
  destruct (while_loop _ _ _ _ _ _ _) as [[streamed heads] st] eqn:Hrun.
  destruct (while_loop_progress clock (encode T) (output_speed_of model_name)
              debug_mode smoothing_factor _ _ _ _ _ Hrun)
    as ([Hsum Hle] & _ & Hsorted & Hall).
  { split; cbn; lia. }
  assert (Hflush : snd (flush st) = i st).
  { unfold flush. destruct (token_buffer st) eqn:E; cbn [snd].
    - cbn in Hsum. lia.
    - rewrite <- Hsum. reflexivity. }
  destruct (flush st) as [flushed sent]. cbn [snd] in Hflush. subst sent.
  destruct (final_logging _ _ _ _ _) as [logged ending].
  cbn [tokens_sent_history]. split.
  - apply StronglySorted_snoc; [assumption|lia].
  - apply Forall_app. split.
    + eapply Forall_impl; [|exact Hall]. cbn. intros; lia.
    + repeat constructor; lia.
Qed.

End GeneratorClaims.

(* ------------------------------------------------------------------ *)
(** ** The claims about the rate controller *)

Module RateControlClaims.
Import Server GeneratorFacts.
Local Open Scope Q_scope.

Example run_mixed_text :
  yielded (effects (_generate_streaming_response (ENCODER := byte_level)
                      Samples.ticking_clock Samples.mixed_text (py "o1") false (7 # 10)))
  = map _format_sse_message [[0x68]; [0xE9]; [0x1F600]; [0x21]]%N.
Proof. vm_compute. reflexivity. Qed.

Example run_ab_frozen :
  map Qred (sleeps (effects (_generate_streaming_response (ENCODER := byte_level)
                     Samples.frozen_clock (py "ab") (py "o1") false (7 # 10))))
  = [3 # 400].
Proof. vm_compute. reflexivity. Qed.

Lemma Qgtb_true a b : b < a -> Qgtb a b = true.
Proof. intros H. unfold Qgtb. now rewrite (proj1 (Qgt_alt a b) H). Qed.

Lemma Qgtb_false a b : a <= b -> Qgtb a b = false.
Proof.
  intros H. unfold Qgtb. pose proof (proj1 (Qle_alt a b) H) as Hc.
  destruct (a ?= b); try reflexivity. now elim Hc.
Qed.

Lemma sleeps_debug_print (b : bool) (line : log_line) :
  sleeps (if b then [Print line] else []) = [].
Proof. now destruct b. Qed.

(** C3 as stated fails.  Under a clock that stands still, the second step of
    a run on "ab" is one token ahead of schedule, which is within two tokens
    of [expected], and it sleeps for 7.5 ms. *)
Lemma dead_band_counterexample :
  let st := Samples.after_first_token in
  let expected := (Samples.frozen_clock (S (i st)) - Samples.frozen_clock 0%nat)
                  * output_speed_of (py "o1") in
  In st (iteration_states (ENCODER := byte_level) Samples.frozen_clock (py "ab") (py "o1")
           false (7 # 10)) /\
  Qabs (of_int (tokens_sent st) - expected) <= 2 /\
  map Qred
    (sleeps (fst (loop_body (ENCODER := byte_level) Samples.frozen_clock
                    (encode (Encoding := byte_level) (py "ab"))
                    (output_speed_of (py "o1")) false (7 # 10) st)))
  = [3 # 400].
Proof.
  cbv zeta. split; [|split].
  - vm_compute. right. left. reflexivity.
  - vm_compute. discriminate.
  - vm_compute. reflexivity.
Qed.

(** C3, amended.  A loop step that is not ahead of schedule
    ([tokens_sent <= expected], which covers being behind by two tokens or
    fewer, and by more) performs no sleep and keeps [last_delay]. *)
Theorem not_ahead_no_sleep {ENCODER : Encoding}
    clock tokens output_speed debug_mode smoothing_factor st :
  let expected := (clock (S (i st)) - clock 0%nat) * output_speed in
  of_int (tokens_sent st) <= expected ->
  let step := loop_body clock tokens output_speed debug_mode smoothing_factor st in
  sleeps (fst step) = [] /\ last_delay (snd step) = last_delay st.
Proof.
  intros expected Hbehind step. subst step. unfold loop_body. cbv zeta.
  unfold start_time. fold expected.
  unfold timing_adjustment. rewrite (Qgtb_false _ _ Hbehind).
  destruct (Qltb _ _); [destruct (debug_mode && _)|];
    (destruct (nth_error tokens (i st)) as [t|];
     [destruct (decode_strict (token_buffer st ++ [t]))|]);
    cbn [fst snd last_delay sleeps]; rewrite ?sleeps_app; auto.
Qed.

(** The instance of the amended C3 at the first step of a run: nothing sent,
    10 ms elapsed, 0.4 tokens expected. *)
Lemma not_ahead_no_sleep_witness :
  of_int (tokens_sent Samples.at_first_token)
  <= (Samples.ticking_clock 1%nat - Samples.ticking_clock 0%nat) * 40 /\
  sleeps (fst (loop_body (ENCODER := byte_level) Samples.ticking_clock (py "ab") 40
                 false (7 # 10) Samples.at_first_token)) = [].
Proof.
  assert (Hbehind : of_int (tokens_sent Samples.at_first_token)
                    <= (Samples.ticking_clock 1%nat - Samples.ticking_clock 0%nat) * 40).
  { vm_compute. discriminate. }
  split; [exact Hbehind|].
  exact (proj1 (not_ahead_no_sleep (ENCODER := byte_level) Samples.ticking_clock (py "ab") 40
                  false (7 # 10) Samples.at_first_token Hbehind)).
Defined.

End RateControlClaims.

(* ------------------------------------------------------------------ *)
(** ** The store's search *)

Module DatabaseFacts.
Import Database.

Lemma text_ltb_asym a : forall b, text_ltb a b = true -> text_ltb b a = false.
Proof.
  induction a as [|x a IH]; intros [|y b] H; cbn [text_ltb] in *;
    try reflexivity; try discriminate.
  apply orb_true_iff in H. apply orb_false_iff.
  destruct H as [H|H]; reflect_N.
  - split; [apply N.ltb_ge; lia|].
    apply andb_false_iff. left. apply N.eqb_neq. lia.
  - subst. split; [apply N.ltb_irrefl|].
    apply andb_false_iff. right. now apply IH.
Qed.

Lemma text_ltb_false_trans a : forall b c,
  text_ltb a b = false -> text_ltb b c = false -> text_ltb a c = false.
Proof.
  induction a as [|x a IH]; intros [|y b] [|z c] Hab Hbc; cbn [text_ltb] in *;
    try reflexivity; try discriminate.
  apply orb_false_iff in Hab, Hbc. apply orb_false_iff.
  destruct Hab as [Hxy Hab], Hbc as [Hyz Hbc]. reflect_N.
  split; [apply N.ltb_ge; lia|].
  apply andb_false_iff in Hab, Hbc. apply andb_false_iff.
  destruct (N.eqb_spec x z) as [<-|Hne]; [right|now left].
  assert (y = x) by lia. subst y.
  rewrite N.eqb_refl in Hab, Hbc.
  destruct Hab as [?|Hab]; [discriminate|].
  destruct Hbc as [?|Hbc]; [discriminate|].
  now apply (IH b c).
Qed.

Lemma In_insert_desc x r l : In x (insert_desc r l) <-> x = r \/ In x l.
Proof.
  induction l as [|y l IH]; cbn [insert_desc In].
  - intuition.
  - destruct (older r y); cbn [In]; rewrite ?IH; intuition.
Qed.

Lemma In_order_by x l : In x (order_by_timestamp_desc l) <-> In x l.
Proof.
  unfold order_by_timestamp_desc. induction l as [|y l IH]; cbn [fold_right In].
  - reflexivity.
  - rewrite In_insert_desc, IH. intuition.
Qed.

Lemma insert_desc_sorted r l :
  StronglySorted not_older l -> StronglySorted not_older (insert_desc r l).
Proof.
  induction l as [|y l IH]; intros Hs; cbn [insert_desc].
  - repeat constructor.
  - inversion Hs as [|? ? Hs' Hall]; subst.
    destruct (older r y) eqn:E.
    + constructor; [auto|].
      apply Forall_forall. intros x Hx. apply In_insert_desc in Hx.
      destruct Hx as [->|Hx].
      * unfold not_older, older in *. now apply text_ltb_asym.
      * rewrite Forall_forall in Hall. auto.
    + constructor; [assumption|].
      constructor; [exact E|].
      eapply Forall_impl; [|exact Hall].
      intros x Hyx. unfold not_older, older in *.
      eapply text_ltb_false_trans; eassumption.
Qed.

Lemma order_by_sorted l : StronglySorted not_older (order_by_timestamp_desc l).
Proof.
  unfold order_by_timestamp_desc. induction l as [|y l IH]; cbn [fold_right].
  - constructor.
  - now apply insert_desc_sorted.
Qed.

Lemma firstn_incl {A} n : forall (l : list A) x, In x (firstn n l) -> In x l.
Proof.
  induction n as [|n IH]; intros [|y l] x H; cbn [firstn In] in *; try tauto.
  destruct H as [H|H]; [now left|right; now apply IH].
Qed.

Lemma firstn_sorted {A} (R : A -> A -> Prop) n : forall l,
  StronglySorted R l -> StronglySorted R (firstn n l).
Proof.
  induction n as [|n IH]; intros [|x l] Hs; cbn [firstn]; try constructor.
  - inversion Hs; subst. auto.
  - inversion Hs as [|? ? _ Hall]; subst.
    rewrite Forall_forall in *. intros y Hy. apply Hall.
    eapply firstn_incl. exact Hy.
Qed.

Lemma In_left_join db r : In r (left_join db) -> In (conv r) (conversations db).
Proof.
  unfold left_join. rewrite in_flat_map. intros (c & Hc & Hr).
  destruct (filter _ (token_usages db)) as [|t ts].
  - destruct Hr as [<-|[]]. exact Hc.
  - apply in_map_iff in Hr. destruct Hr as (u & <- & _). exact Hc.
Qed.

(** What [search_conversations] returns: rows of the store whose prompt or
    response matches the pattern, most recent first, [limit] at most. *)
Lemma search_conversations_rows db query limit r :
  In r (search_conversations db query limit 0) ->
  In (conv r) (conversations db) /\
  (like (search_param query) (prompt (conv r))
   || like (search_param query) (response (conv r))) = true.
Proof.
  unfold search_conversations. cbn [skipn]. intros Hin.
  apply firstn_incl in Hin.
  apply In_order_by, filter_In in Hin. destruct Hin as [Hjoin Hlike].
  split; [now apply In_left_join|exact Hlike].
Qed.

Lemma search_conversations_sorted db query limit :
  StronglySorted not_older (search_conversations db query limit 0).
Proof.
  unfold search_conversations. cbn [skipn].
  apply firstn_sorted, order_by_sorted.
Qed.

Lemma search_conversations_limit db query limit :
  (List.length (search_conversations db query limit 0) <= limit)%nat.
Proof. unfold search_conversations. apply firstn_le_length. Qed.

End DatabaseFacts.

(* ------------------------------------------------------------------ *)
(** ** The claims about the locator, the framer and the endpoint *)

Module EndpointClaims.
Import Database Server DatabaseFacts.


Lemma filter_none {A} (f : A -> bool) l :
  (forall x, In x l -> f x = false) -> filter f l = [].
Proof.
  induction l as [|x l IH]; intros H; cbn [filter]; [reflexivity|].
  rewrite (H x (or_introl eq_refl)). apply IH. intros y Hy. apply H. now right.
Qed.

(** C4 as stated fails.  A request with [smoothing_factor = 1.5] whose
    prompt and model are in the store is not rejected: the endpoint returns
    a streaming response, whose generator runs with 1.5 and yields the
    recorded text. *)
Lemma smoothing_factor_counterexample :
  let data := Samples.request_for (py "What is 2+2?") (py "o1") (Some (3 # 2)%Q) in
  let made :=
    {| body_response_text := py "The answer is 4";
       body_model_name := py "o1";
       body_debug_mode := false;
       body_smoothing_factor := (3 # 2)%Q;
       media_type := py "text/event-stream" |} in
  Qle_bool 0 (3 # 2) && Qle_bool (3 # 2) 1 = false /\
  chat_completions Samples.one_exchange_db data = Return made /\
  List.length (yielded (effects (body (ENCODER := byte_level) Samples.ticking_clock made)))
  = 15%nat.
Proof. vm_compute. auto. Qed.

(** C4, amended.  The endpoint never looks at [smoothing_factor]: with any
    value [f], in [0, 1] or not, a request is rejected exactly when it is
    rejected without it, and otherwise the streaming response is made as
    before, with [f] handed unchanged to the generator. *)
Theorem smoothing_factor_unchecked db data f :
  chat_completions db (with_smoothing_factor data f)
  = match chat_completions db data with
    | Raise e => Raise e
    | Return r => Return (streaming_with r f)
    end.
Proof.
  unfold chat_completions, with_smoothing_factor.
  cbn [messages model debug_mode_field smoothing_factor_field].
  destruct (messages data) as [[|first rest]|]; try reflexivity.
  destruct (content first); try reflexivity.
  destruct (model data); try reflexivity.
  destruct (_find_matching_response db _ _); reflexivity.
Qed.

(** C6 as stated fails: [json.dumps] puts a blank after every colon, so the
    message for the chunk "Hi" is not the specification's shape around the
    JSON string of "Hi". *)
Lemma wire_shape_counterexample :
  _format_sse_message (py "Hi")
  <> spec_wire_shape (Json.encode_basestring_ascii (py "Hi")).
Proof. vm_compute. discriminate. Qed.

(** C6, amended.  Every message is the prefix [data: ], the serialization
    [{"choices": [{"delta": {"content": <s>}}]}] with a blank after each
    colon, where [<s>] is the chunk text as an ASCII-only JSON string, and
    two newlines. *)
Theorem format_sse_message_shape content :
  _format_sse_message content
  = wire_shape (Json.encode_basestring_ascii content).
Proof.
  unfold _format_sse_message, wire_shape. cbv zeta.
  cbn [Json.dumps map String.concat].
  generalize (Json.encode_basestring_ascii content). intros s.
  vm_compute (Json.encode_basestring_ascii (py "choices")).
  vm_compute (Json.encode_basestring_ascii (py "delta")).
  vm_compute (Json.encode_basestring_ascii (py "content")).
  unfold Json.str1, Json.str2, Json.dquote, Json.newline.
  cbn [append]. rewrite !JsonFacts.append_assoc. cbn [append]. reflexivity.
Qed.

Example format_sse_message_hi :
  _format_sse_message (py "Hi") = wire_shape (String Json.dquote "Hi" ++ Json.str1 Json.dquote).
Proof. vm_compute. reflexivity. Qed.

End EndpointClaims.

(* ------------------------------------------------------------------ *)
(** ** Sessions on one event loop *)

Module EventLoopFacts.
Import Server EventLoop.
Local Open Scope Q_scope.

(** The thread spends the sleep of a session: whatever comes after it in
    the history, of whichever session, starts that much later. *)
Lemma started_after_sleep h1 : forall t session seconds h2,
  exists t1,
    started t (h1 ++ (session, Sleep seconds) :: h2)
    = started t h1 ++ (session, Sleep seconds, t1) :: started (t1 + seconds) h2.
Proof.
  induction h1 as [|e h1 IH]; intros t session seconds h2; cbn [app started].
  - exists t. reflexivity.
  - destruct (IH (t + duration (snd e)) session seconds h2) as [t1 Ht1].
    exists t1. now rewrite Ht1.
Qed.

(** C9 fails on the code.  Two sessions replay "ab" at 40 tokens a second;
    they begin together and take turns on the event loop.  Alone, a session
    sends its second message 7.5 ms after its first.  Together, session 1
    gets the thread back only after session 0 has slept, reads the clock
    7.5 ms late, and sends its second message after 12.75 ms. *)
Theorem sleeping_session_delays_the_other :
  let replay clock :=
    effects (_generate_streaming_response (ENCODER := byte_level)
               clock (py "ab") (py "o1") false (7 # 10)) in
  let es0 := replay Samples.frozen_clock in
  let es1 := replay Samples.delayed_clock in
  let h := take_turns 2 es0 es1 in
  (consistent (started 0 (alone 1 es0)) = true /\
   map Qred (yield_times 1 (started 0 (alone 1 es0))) = [0; 3 # 400]) /\
  (of_session 0 h = es0 /\ of_session 1 h = es1 /\
   consistent (started 0 h) = true /\
   map Qred (yield_times 1 (started 0 h)) = [0; 51 # 4000]).
Proof. vm_compute. auto. Qed.

End EventLoopFacts.

(* ------------------------------------------------------------------ *)
(** ** Substrings and LIKE patterns *)

Module LikeFacts.
Import Database.

Lemma startswith_spec s : forall prefix,
  startswith s prefix = true <-> exists rest, s = prefix ++ rest.
Proof.
  induction s as [|c s IH]; intros [|p prefix]; cbn [startswith app].
  - split; [exists []; reflexivity|reflexivity].
  - split; [discriminate|intros [rest H]; discriminate].
  - split; [exists (c :: s); reflexivity|reflexivity].
  - rewrite andb_true_iff, N.eqb_eq, IH. split.
    + intros [-> [rest ->]]. now exists rest.
    + intros [rest H]. injection H as -> ->. split; [reflexivity|now exists rest].
Qed.

(** [needle in haystack] is: the needle stands somewhere in the haystack. *)
Lemma str_in_spec needle haystack :
  str_in needle haystack = true
  <-> exists before after, haystack = before ++ needle ++ after.
Proof.
  induction haystack as [|c h IH]; cbn [str_in].
  - rewrite orb_false_r, startswith_spec. split.
    + intros [rest H]. exists [], rest. exact H.
    + intros (before & after & H).
      destruct before; [|discriminate]. now exists after.
  - rewrite orb_true_iff, startswith_spec, IH. split.
    + intros [[rest H]|(before & after & H)].
      * exists [], rest. exact H.
      * exists (c :: before), after. cbn [app]. now rewrite H.
    + intros (before & after & H). destruct before as [|b before].
      * left. now exists after.
      * right. cbn [app] in H. injection H as _ H. now exists before, after.
Qed.

Lemma str_in_refl s : str_in s s = true.
Proof. apply str_in_spec. exists [], []. now rewrite app_nil_r. Qed.

Lemma str_in_trans a b c :
  str_in a b = true -> str_in b c = true -> str_in a c = true.
Proof.
  rewrite !str_in_spec. intros (p1 & q1 & ->) (p2 & q2 & ->).
  exists (p2 ++ p1), (q1 ++ q2). now rewrite <- !app_assoc.
Qed.

(** A pattern that begins with [%] matches when the rest of the pattern
    matches some tail of the text. *)
Lemma like_percent pattern s :
  like (0x25 :: pattern) s = true
  <-> exists before rest, s = before ++ rest /\ like pattern rest = true.
Proof.
  cbn [like]. change (0x25 =? 0x25) with true. cbv iota.
  induction s as [|c s IH].
  - rewrite orb_false_r. split.
    + intros H. now exists [], [].
    + intros (before & rest & H & Hl).
      symmetry in H. apply app_eq_nil in H. destruct H as [_ ->]. exact Hl.
  - rewrite orb_true_iff, IH. split.
    + intros [H|(before & rest & -> & Hl)].
      * now exists [], (c :: s).
      * now exists (c :: before), rest.
    + intros (before & rest & H & Hl). destruct before as [|b before].
      * left. cbn [app] in H. now rewrite H.
      * right. cbn [app] in H. injection H as _ ->. now exists before, rest.
Qed.

(** Every character matches itself, the two wildcards too. *)
Lemma like_refl s : like s s = true.
Proof.
  induction s as [|c s IH]; [reflexivity|].
  destruct (c =? 0x25) eqn:E.
  - apply N.eqb_eq in E. subst c. apply like_percent. now exists [0x25], s.
  - cbn [like]. rewrite E, N.eqb_refl, orb_true_r. exact IH.
Qed.

Lemma like_app_percent pattern : forall s after,
  like pattern s = true -> like (pattern ++ [0x25]) (s ++ after) = true.
Proof.
  induction pattern as [|p pattern IH]; intros s after H.
  - destruct s; [|discriminate]. cbn [app]. apply like_percent.
    exists after, []. now rewrite app_nil_r.
  - destruct (p =? 0x25) eqn:E.
    + apply N.eqb_eq in E. subst p. cbn [app]. apply like_percent.
      apply like_percent in H. destruct H as (before & rest & -> & Hl).
      exists before, (rest ++ after). rewrite app_assoc. auto.
    + cbn [like app] in *. rewrite E in *.
      destruct s as [|c s]; [discriminate|]. cbn [app].
      apply andb_true_iff in H. destruct H as [-> H]. now apply IH.
Qed.

Lemma like_search_param_of_substring query s :
  str_in query s = true -> like (search_param query) s = true.
Proof.
  intros H. apply str_in_spec in H. destruct H as (before & after & ->).
  change (search_param query) with (0x25 :: (query ++ [0x25])).
  apply like_percent. exists before, (query ++ after). split; [reflexivity|].
  apply like_app_percent, like_refl.
Qed.

Lemma like_everything s : like (search_param []) s = true.
Proof. apply like_search_param_of_substring. now destruct s. Qed.

End LikeFacts.

(* ------------------------------------------------------------------ *)
(** ** Writing to the store and reading back *)

Module StoreFacts.
Import Database Store Server DatabaseFacts LikeFacts.

Lemma id_lt_lastrowid db c : In c (conversations db) -> id c < lastrowid db.
Proof.
  unfold lastrowid. induction (conversations db) as [|x l IH]; intros H.
  - destruct H.
  - cbn [fold_right]. destruct H as [->|H]; [lia|]. specialize (IH H). lia.
Qed.

Lemma left_join_app convs1 convs2 usages :
  left_join {| conversations := convs1 ++ convs2; token_usages := usages |}
  = left_join {| conversations := convs1; token_usages := usages |}
    ++ left_join {| conversations := convs2; token_usages := usages |}.
Proof. unfold left_join. cbn [conversations token_usages]. apply flat_map_app. Qed.

Lemma left_join_one c usages :
  let rows := left_join {| conversations := [c]; token_usages := usages |} in
  rows <> [] /\ Forall (fun r => conv r = c) rows /\
  (forallb (fun t => negb (id c =? conversation_id t)) usages = true ->
   rows = [{| conv := c; usage := None |}]).
Proof.
  cbv zeta. unfold left_join. cbn [conversations token_usages flat_map].
  rewrite app_nil_r.
  destruct (filter _ usages) as [|t ts] eqn:E.
  - repeat split; [discriminate|repeat constructor].
  - split; [discriminate|]. split.
    + apply Forall_forall. intros r Hr. apply in_map_iff in Hr.
      now destruct Hr as (u & <- & _).
    + intros Hnone.
      assert (Hin : In t (filter (fun t => id c =? conversation_id t) usages))
        by (rewrite E; now left).
      apply filter_In in Hin. destruct Hin as [Hin Ht].
      rewrite forallb_forall in Hnone. specialize (Hnone t Hin).
      rewrite Ht in Hnone. discriminate.
Qed.

Lemma left_join_eta db :
  left_join db
  = left_join {| conversations := conversations db; token_usages := token_usages db |}.
Proof. reflexivity. Qed.

(** The rows of the join after [save_conversation]: those before, then the
    rows of the new conversation. *)
Lemma left_join_save db now model_name_ prompt_ response_ :
  let saved := save_conversation db now model_name_ prompt_ response_ in
  let new := {| id := snd saved; model_name := model_name_; timestamp := now;
                prompt := prompt_; response := response_ |} in
  exists rows,
    left_join (fst saved) = left_join db ++ rows /\
    rows <> [] /\ Forall (fun r => conv r = new) rows /\
    (well_formed db = true -> rows = [{| conv := new; usage := None |}]).
Proof.
  cbv zeta. unfold save_conversation. cbn [fst snd].
  set (new := {| id := lastrowid db; model_name := model_name_; timestamp := now;
                 prompt := prompt_; response := response_ |}).
  rewrite left_join_eta. cbn [conversations token_usages].
  rewrite left_join_app.
  destruct (left_join_one new (token_usages db)) as (Hne & Hall & Hnone).
  eexists. split; [reflexivity|]. split; [exact Hne|]. split; [exact Hall|].
  intros Hwf. apply Hnone.
  unfold well_formed in Hwf. apply andb_true_iff in Hwf. destruct Hwf as [_ Hfk].
  rewrite forallb_forall in *. intros t Ht. specialize (Hfk t Ht).
  apply existsb_exists in Hfk. destruct Hfk as (c & Hc & Hid).
  apply N.eqb_eq in Hid. apply negb_true_iff, N.eqb_neq.
  unfold new. cbn [id]. pose proof (id_lt_lastrowid db c Hc). lia.
Qed.

Lemma hd_sorted_newest (l : list row) h tl x :
  order_by_timestamp_desc l = h :: tl -> In x l -> x = h \/ older h x = false.
Proof.
  intros E Hx. apply In_order_by in Hx. rewrite E in Hx.
  pose proof (order_by_sorted l) as Hs. rewrite E in Hs.
  inversion Hs as [|? ? _ Hall]; subst.
  destruct Hx as [<-|Hx]; [now left|right].
  rewrite Forall_forall in Hall. now apply Hall.
Qed.


Lemma filter_all {A} (f : A -> bool) l :
  (forall x, In x l -> f x = true) -> filter f l = l.
Proof.
  induction l as [|x l IH]; intros H; cbn [filter]; [reflexivity|].
  rewrite (H x (or_introl eq_refl)). f_equal. apply IH. intros y Hy. apply H. now right.
Qed.

Lemma existsb_eqb_In (l : list N) x : existsb (N.eqb x) l = true <-> In x l.
Proof.
  rewrite existsb_exists. split.
  - intros (y & Hy & E). apply N.eqb_eq in E. now subst.
  - intros H. exists x. split; [exact H|apply N.eqb_refl].
Qed.

Lemma distinct_snoc l x :
  distinct (l ++ [x]) = distinct l && negb (existsb (N.eqb x) l).
Proof.
  induction l as [|y l IH]; cbn [app distinct existsb].
  - reflexivity.
  - rewrite IH, existsb_app. cbn [existsb]. rewrite orb_false_r.
    rewrite (N.eqb_sym x y).
    destruct (existsb (N.eqb y) l), (y =? x), (distinct l), (existsb (N.eqb x) l);
      reflexivity.
Qed.

Lemma old_rows_other_id db k :
  lastrowid db <= k ->
  filter (fun r => id (conv r) =? k) (left_join db) = [].
Proof.
  intros Hk. apply EndpointClaims.filter_none. intros r Hr.
  apply In_left_join in Hr. apply id_lt_lastrowid in Hr. apply N.eqb_neq. lia.
Qed.

(** X1.  [save_conversation] then [get_conversation]: the new id reads back the
    exchange that was saved, with no token usage; every other id reads as
    before; and the store stays well formed. *)
Theorem save_then_get_conversation db now model_name_ prompt_ response_ :
  well_formed db = true ->
  let saved := save_conversation db now model_name_ prompt_ response_ in
  get_conversation (fst saved) (snd saved)
  = Some {| conv := {| id := snd saved; model_name := model_name_;
                       timestamp := now; prompt := prompt_;
                       response := response_ |};
            usage := None |} /\
  (forall k, k <> snd saved ->
     get_conversation (fst saved) k = get_conversation db k) /\
  well_formed (fst saved) = true.
Proof.
  intros Hwf saved.
  destruct (left_join_save db now model_name_ prompt_ response_)
    as (rows & Hjoin & _ & Hall & Hone). cbv zeta in Hjoin, Hall, Hone.
  fold saved in Hjoin, Hall, Hone. specialize (Hone Hwf). subst rows.
  split; [|split].
  - unfold get_conversation. rewrite Hjoin, filter_app.
    rewrite (old_rows_other_id db) by (unfold saved, save_conversation; cbn [snd]; lia).
    cbn [app filter conv id]. now rewrite N.eqb_refl.
  - intros k Hk. unfold get_conversation. rewrite Hjoin, filter_app.
    cbn [filter conv id]. rewrite (proj2 (N.eqb_neq _ _)) by congruence.
    now rewrite app_nil_r.
  - unfold well_formed in *. apply andb_true_iff in Hwf. destruct Hwf as [Hpk Hfk].
    unfold saved, save_conversation. cbn [fst conversations token_usages].
    rewrite map_app. cbn [map id]. rewrite distinct_snoc, Hpk. cbn [andb].
    apply andb_true_iff. split.
    + apply negb_true_iff. apply not_true_is_false. intros Hin.
      apply existsb_eqb_In, in_map_iff in Hin. destruct Hin as (c & Hid & Hc).
      apply id_lt_lastrowid in Hc. lia.
    + rewrite forallb_forall in *. intros t Ht. rewrite existsb_app.
      now rewrite (Hfk t Ht).
Qed.

Lemma save_then_get_conversation_witness :
  well_formed Samples.one_exchange_db = true /\
  get_conversation
    (fst (save_conversation Samples.one_exchange_db MoreSamples.next_day
            (py "o1") (py "And 3+3?") (py "6")))
    2
  = Some {| conv := {| id := 2; model_name := py "o1";
                       timestamp := MoreSamples.next_day;
                       prompt := py "And 3+3?"; response := py "6" |};
            usage := None |}.
Proof.
  split; [reflexivity|].
  exact (proj1 (save_then_get_conversation Samples.one_exchange_db
                  MoreSamples.next_day (py "o1") (py "And 3+3?") (py "6")
                  eq_refl)).
Defined.

(** X2.  [save_token_usage] refuses an id that is no conversation's, and only
    such an id; when it succeeds it leaves the conversations alone and the
    store well formed. *)
Theorem save_token_usage_foreign_key db k input output total :
  (save_token_usage db k input output total = None
   <-> forall c, In c (conversations db) -> id c <> k) /\
  (forall db', save_token_usage db k input output total = Some db' ->
     conversations db' = conversations db /\
     (well_formed db = true -> well_formed db' = true)).
Proof.
  unfold save_token_usage.
  destruct (existsb _ (conversations db)) eqn:E; split.
  - split; [discriminate|]. intros H. apply existsb_exists in E.
    destruct E as (c & Hc & Hid). apply N.eqb_eq in Hid. now elim (H c Hc).
  - intros db' H. injection H as <-. cbn [conversations token_usages].
    split; [reflexivity|]. unfold well_formed. cbn [conversations token_usages].
    intros Hwf. apply andb_true_iff in Hwf. destruct Hwf as [-> Hfk]. cbn [andb].
    rewrite forallb_app, Hfk. cbn [forallb conversation_id]. now rewrite E.
  - split; [|reflexivity]. intros _ c Hc Hid.
    assert (existsb (fun c => id c =? k) (conversations db) = true); [|congruence].
    apply existsb_exists. exists c. split; [exact Hc|now apply N.eqb_eq].
  - discriminate.
Qed.

(** X3.  The three calls of the recording client, in order: after
    [save_conversation] and [save_token_usage] without a total,
    [get_conversation] shows the exchange with the sum of its input and
    output tokens as total. *)
Theorem save_usage_then_get_conversation db now model_name_ prompt_ response_
    input output :
  well_formed db = true ->
  let saved := save_conversation db now model_name_ prompt_ response_ in
  exists db',
    save_token_usage (fst saved) (snd saved) input output None = Some db' /\
    get_conversation db' (snd saved)
    = Some {| conv := {| id := snd saved; model_name := model_name_;
                         timestamp := now; prompt := prompt_;
                         response := response_ |};
              usage := Some {| conversation_id := snd saved;
                               input_tokens := input;
                               output_tokens := output;
                               total_tokens := input + output |} |}.
Proof.
  intros Hwf saved.
  assert (Hfk : forallb (fun t => negb (lastrowid db =? conversation_id t))
                        (token_usages db) = true).
  { unfold well_formed in Hwf. apply andb_true_iff in Hwf. destruct Hwf as [_ Hfk].
    rewrite forallb_forall in *. intros t Ht. specialize (Hfk t Ht).
    apply existsb_exists in Hfk. destruct Hfk as (c & Hc & Hid).
    apply N.eqb_eq in Hid. apply negb_true_iff, N.eqb_neq.
    pose proof (id_lt_lastrowid db c Hc). lia. }
  unfold saved, save_conversation, save_token_usage.
  cbn [fst snd conversations token_usages].
  rewrite existsb_app. cbn [existsb id]. rewrite N.eqb_refl, orb_true_r.
  eexists. split; [reflexivity|].
  unfold get_conversation. rewrite left_join_eta. cbn [conversations token_usages].
  rewrite left_join_app, filter_app.
  assert (Hold : filter (fun r => id (conv r) =? lastrowid db)
                   (left_join {| conversations := conversations db;
                                 token_usages := token_usages db ++
                                   [{| conversation_id := lastrowid db;
                                       input_tokens := input;
                                       output_tokens := output;
                                       total_tokens := input + output |}] |}) = []).
  { apply EndpointClaims.filter_none. intros r Hr. apply In_left_join in Hr.
    cbn [conversations] in Hr. apply id_lt_lastrowid in Hr. apply N.eqb_neq. lia. }
  rewrite Hold. cbn [app].
  assert (Hmine : filter (fun t => lastrowid db =? conversation_id t)
                    (token_usages db ++
                       [{| conversation_id := lastrowid db;
                           input_tokens := input;
                           output_tokens := output;
                           total_tokens := input + output |}])
                  = [{| conversation_id := lastrowid db;
                        input_tokens := input;
                        output_tokens := output;
                        total_tokens := input + output |}]).
  { rewrite filter_app. cbn [filter conversation_id]. rewrite N.eqb_refl.
    rewrite EndpointClaims.filter_none; [reflexivity|].
    intros t Ht. rewrite forallb_forall in Hfk. now apply negb_true_iff, Hfk. }
  unfold left_join. cbn [conversations token_usages flat_map id].
  rewrite Hmine. cbn [app map filter conv id]. now rewrite N.eqb_refl.
Qed.

Lemma save_usage_then_get_conversation_witness :
  well_formed Samples.one_exchange_db = true /\
  exists db',
    save_token_usage
      (fst (save_conversation Samples.one_exchange_db MoreSamples.next_day
              (py "o1") (py "And 3+3?") (py "6")))
      2 120 8 None
    = Some db' /\
    option_map usage (get_conversation db' 2)
    = Some (Some {| conversation_id := 2; input_tokens := 120;
                    output_tokens := 8; total_tokens := 128 |}).
Proof.
  split; [reflexivity|].
  destruct (save_usage_then_get_conversation Samples.one_exchange_db
              MoreSamples.next_day (py "o1") (py "And 3+3?") (py "6") 120 8
              eq_refl) as (db' & Hsaved & Hread).
  exists db'. split; [exact Hsaved|].
  exact (f_equal (option_map usage) Hread).
Defined.

(** X4.  The empty query matches every row: searching for it is listing. *)
Theorem search_empty_query_lists_all db limit offset :
  search_conversations db [] limit offset = get_all_conversations db limit offset.
Proof.
  unfold search_conversations, get_all_conversations. cbv zeta.
  rewrite filter_all; [reflexivity|].
  intros r _. now rewrite like_everything.
Qed.

Lemma firstn_skipn_pages {A} (l : list A) n m offset :
  firstn n (skipn offset l) ++ firstn m (skipn (offset + n) l)
  = firstn (n + m) (skipn offset l).
Proof.
  replace (offset + n)%nat with (n + offset)%nat by lia.
  rewrite <- (skipn_skipn n offset l).
  generalize (skipn offset l). clear l.
  induction n as [|n IH]; intros [|x l]; cbn [firstn skipn app Nat.add];
    rewrite ?firstn_nil; try reflexivity.
  now rewrite IH.
Qed.

(** X5.  Consecutive pages neither skip nor repeat a row: the page of [n] rows
    at [offset] followed by the page of [m] rows at [offset + n] is the
    page of [n + m] rows at [offset], for listing and for searching. *)
Theorem consecutive_pages db query n m offset :
  get_all_conversations db n offset ++ get_all_conversations db m (offset + n)
  = get_all_conversations db (n + m) offset /\
  search_conversations db query n offset
  ++ search_conversations db query m (offset + n)
  = search_conversations db query (n + m) offset.
Proof.
  unfold get_all_conversations, search_conversations. cbv zeta.
  split; apply firstn_skipn_pages.
Qed.

Lemma insert_desc_perm r l : Permutation (insert_desc r l) (r :: l).
Proof.
  induction l as [|x l IH]; cbn [insert_desc]; [reflexivity|].
  destruct (older r x); [|reflexivity].
  rewrite IH. apply perm_swap.
Qed.

Lemma order_by_perm l : Permutation (order_by_timestamp_desc l) l.
Proof.
  unfold order_by_timestamp_desc. induction l as [|x l IH]; cbn [fold_right].
  - reflexivity.
  - rewrite insert_desc_perm. now constructor.
Qed.

Lemma In_left_join_conv db c :
  In c (conversations db) -> exists r, In r (left_join db) /\ conv r = c.
Proof.
  intros Hc. unfold left_join.
  destruct (filter (fun t => id c =? conversation_id t) (token_usages db))
    as [|t ts] eqn:E.
  - exists {| conv := c; usage := None |}. split; [|reflexivity].
    apply in_flat_map. exists c. split; [exact Hc|]. rewrite E. now left.
  - exists {| conv := c; usage := Some t |}. split; [|reflexivity].
    apply in_flat_map. exists c. split; [exact Hc|]. rewrite E.
    apply in_map_iff. exists t. split; [reflexivity|now left].
Qed.

(** X6.  With a limit that covers the table, the listing is the joined rows in
    most-recent-first order, nothing added and nothing lost: every
    conversation of the store is in it, with or without token usage. *)
Theorem listing_is_complete db limit :
  (List.length (left_join db) <= limit)%nat ->
  let listing := get_all_conversations db limit 0 in
  Permutation listing (left_join db) /\
  StronglySorted not_older listing /\
  forall c, In c (conversations db) -> exists r, In r listing /\ conv r = c.
Proof.
  intros Hlimit listing.
  assert (E : listing = order_by_timestamp_desc (left_join db)).
  { unfold listing, get_all_conversations. cbn [skipn]. apply firstn_all2.
    now rewrite (Permutation_length (order_by_perm _)). }
  rewrite E. split; [apply order_by_perm|]. split; [apply order_by_sorted|].
  intros c Hc. destruct (In_left_join_conv db c Hc) as (r & Hr & Hconv).
  exists r. split; [now apply In_order_by|exact Hconv].
Qed.

Lemma listing_is_complete_witness :
  (List.length (left_join Samples.one_exchange_db) <= 20)%nat /\
  Permutation (get_all_conversations Samples.one_exchange_db 20 0)
    (left_join Samples.one_exchange_db).
Proof.
  assert (Hlimit : (List.length (left_join Samples.one_exchange_db) <= 20)%nat)
    by (vm_compute; lia).
  split; [exact Hlimit|].
  exact (proj1 (listing_is_complete Samples.one_exchange_db 20 Hlimit)).
Defined.

End StoreFacts.

(* ------------------------------------------------------------------ *)
(** ** The viewer's text formatting *)

Module ViewFacts.
Import ViewConversations.

Lemma text_eqb_eq a b : text_eqb a b = true <-> a = b.
Proof. unfold text_eqb. destruct (list_eq_dec N.eq_dec a b); split; congruence. Qed.

Lemma remove_newlines_length t :
  (List.length (remove_newlines t) <= List.length t)%nat.
Proof. apply filter_length_le. Qed.

Lemma remove_newlines_clean t : ~ In 0x0A (remove_newlines t).
Proof.
  unfold remove_newlines. intros H. apply filter_In in H.
  destruct H as [_ H]. now rewrite N.eqb_refl in H.
Qed.

(** X8.  [format_text] with its two ways of truncating: the result has at most
    [max_length + 3] characters; a text of at most [max_length] characters
    comes back as it is; a longer one comes back without newlines. *)
Theorem format_text_fits text_ max_length truncate_from :
  (truncate_from = py "start" /\ (0 <= max_length)%Z) \/
  (truncate_from = py "end" /\ (1 <= max_length)%Z) ->
  let shown := format_text (Some text_) max_length truncate_from in
  (Z.of_nat (List.length shown) <= max_length + 3)%Z /\
  ((Z.of_nat (List.length text_) <= max_length)%Z -> shown = text_) /\
  ((max_length < Z.of_nat (List.length text_))%Z -> ~ In 0x0A shown).
Proof.
  intros Hmode shown. subst shown. unfold format_text.
  destruct text_ as [|c t]; [cbn; repeat split; try lia; tauto|].
  set (full := c :: t).
  destruct (Z.ltb_spec max_length (Z.of_nat (List.length full))) as [Hlong|Hshort].
  - destruct Hmode as [[-> Hmax]|[-> Hmax]].
    + replace (text_eqb (py "start") (py "start")) with true by reflexivity.
      unfold slice_to. rewrite (proj2 (Z.leb_le _ _) Hmax).
      split; [|split]; [|lia|].
      * rewrite length_app. cbn [List.length py map list_ascii_of_string].
        pose proof (remove_newlines_length (firstn (Z.to_nat max_length) full)).
        pose proof (firstn_le_length (Z.to_nat max_length) full). lia.
      * intros _ Hin. apply in_app_or in Hin. destruct Hin as [Hin|Hin].
        -- now apply remove_newlines_clean in Hin.
        -- vm_compute in Hin. intuition discriminate.
    + replace (text_eqb (py "end") (py "start")) with false by reflexivity.
      replace (text_eqb (py "end") (py "end")) with true by reflexivity.
      unfold slice_last. rewrite (proj2 (Z.ltb_lt 0 max_length)) by lia.
      split; [|split]; [|lia|].
      * rewrite length_app. cbn [List.length py map list_ascii_of_string].
        pose proof (remove_newlines_length
                      (skipn (List.length full - Z.to_nat max_length) full)).
        rewrite length_skipn in H. lia.
      * intros _ Hin. apply in_app_or in Hin. destruct Hin as [Hin|Hin].
        -- vm_compute in Hin. intuition discriminate.
        -- now apply remove_newlines_clean in Hin.
  - split; [lia|]. split; [reflexivity|lia].
Qed.

Lemma format_text_fits_witness :
  (py "start" = py "start" /\ (0 <= 20)%Z) /\
  (Z.of_nat (List.length (format_text (Some MoreSamples.two_lines) 20 (py "start")))
   <= 20 + 3)%Z /\
  ~ In 0x0A (format_text (Some MoreSamples.two_lines) 20 (py "start")).
Proof.
  assert (Hmode : (py "start" = py "start" /\ (0 <= 20)%Z) \/
                  (py "start" = py "end" /\ (1 <= 20)%Z))
    by (left; split; [reflexivity|lia]).
  destruct (format_text_fits MoreSamples.two_lines 20 (py "start") Hmode)
    as (Hfits & _ & Hclean).
  split; [split; [reflexivity|lia]|]. split; [exact Hfits|].
  apply Hclean. vm_compute. reflexivity.
Defined.

(** X9.  With [max_length = 0], truncating from the end cuts nothing:
    [text[-0:]] is the whole text, so every character that is not a
    newline is shown after the dots. *)
Theorem format_text_zero_from_end text_ :
  text_ <> [] ->
  format_text (Some text_) 0 (py "end") = py "..." ++ remove_newlines text_.
Proof.
  intros Hne. unfold format_text. destruct text_ as [|c t]; [now elim Hne|].
  replace (0 <? Z.of_nat (List.length (c :: t)))%Z with true
    by (symmetry; apply Z.ltb_lt; cbn [List.length]; lia).
  reflexivity.
Qed.

Lemma format_text_zero_from_end_witness :
  MoreSamples.two_lines <> [] /\
  format_text (Some MoreSamples.two_lines) 0 (py "end")
  = py "..." ++ py "first line" ++ py "and a second, longer".
Proof.
  assert (Hne : MoreSamples.two_lines <> []) by discriminate.
  split; [exact Hne|].
  exact (format_text_zero_from_end MoreSamples.two_lines Hne).
Defined.

End ViewFacts.

(* ------------------------------------------------------------------ *)
(** ** The recording client *)

Module LLMClientFacts.
Import LLMClient LikeFacts.

(** X10.  A model is taken for a Claude model exactly when its name contains
    "claude": the two longer names of the list add nothing. *)
Theorem is_claude_model_iff_contains_claude model_name :
  is_claude_model model_name = str_in (py "claude") model_name.
Proof.
  unfold is_claude_model, claude_models. cbn [existsb]. rewrite orb_false_r.
  destruct (str_in (py "claude") model_name) eqn:E.
  - now rewrite !orb_true_r.
  - assert (H1 : str_in (py "claude-3-5-sonnet") model_name = false).
    { apply not_true_is_false. intros H.
      rewrite (str_in_trans (py "claude") (py "claude-3-5-sonnet") _ eq_refl H) in E.
      discriminate. }
    assert (H2 : str_in (py "claude-3-7-sonnet-20250219") model_name = false).
    { apply not_true_is_false. intros H.
      rewrite (str_in_trans (py "claude") (py "claude-3-7-sonnet-20250219") _
                 eq_refl H) in E.
      discriminate. }
    now rewrite H1, H2.
Qed.

End LLMClientFacts.

(* ------------------------------------------------------------------ *)
(** ** Retrying with back-off *)

Module RetryFacts.
Import MakeARequest.
Local Open Scope nat_scope.

Section Retry.

Variable A : Type.
Variable func : nat -> outcome A.
Variable retries : nat.

Local Abbreviation run_from := (attempts A func retries).

Lemma attempts_bounds remaining : forall attempt,
  attempt + remaining = retries ->
  let (actions, final) := run_from remaining attempt in
  calls actions <= remaining /\
  List.length (backoffs actions) = calls actions - 1 /\
  Forall (fun seconds => seconds <= 5) (backoffs actions) /\
  (0 < remaining -> 1 <= calls actions /\ final <> PyNone).
Proof.
  induction remaining as [|remaining IH]; intros attempt Hsum; cbn [attempts].
  - cbn. repeat split; try lia. constructor.
  - destruct (func attempt) as [[result|]| |].
    + cbn. repeat split; try lia; try constructor; discriminate.
    + cbn. repeat split; try lia; try constructor; discriminate.
    + destruct (Nat.eqb_spec attempt (retries - 1)) as [Hlast|Hmore].
      * cbn. repeat split; try lia; try constructor; discriminate.
      * specialize (IH (S attempt)).
        destruct (run_from remaining (S attempt)) as [later final].
        destruct IH as (Hc & Hb & Hall & Hsome); [lia|].
        cbn [calls backoffs List.length].
        assert (0 < remaining) by lia. destruct (Hsome H) as [Hc1 Hfinal].
        repeat split; try lia; try assumption.
        constructor; [apply Nat.le_min_r|assumption].
    + cbn. repeat split; try lia; try constructor; discriminate.
Qed.

Lemma attempts_first_decisive k : forall remaining attempt,
  attempt + remaining = retries ->
  k < remaining ->
  (forall j, attempt <= j < attempt + k -> func j = RaisesRequestException) ->
  func (attempt + k) <> RaisesRequestException ->
  let (actions, final) := run_from remaining attempt in
  calls actions = S k /\
  backoffs actions = map backoff_of (seq attempt k) /\
  final = match func (attempt + k) with
          | Returns (Some result) => Result result
          | Returns None => PyTrue
          | _ => PyFalse
          end.
Proof.
  induction k as [|k IH]; intros remaining attempt Hsum Hk Hfail Hdecides;
    (destruct remaining as [|remaining]; [lia|]); cbn [attempts].
  - rewrite Nat.add_0_r in *.
    destruct (func attempt) as [[result|]| |]; cbn; auto. now elim Hdecides.
  - rewrite (Hfail attempt) by lia.
    destruct (Nat.eqb_spec attempt (retries - 1)) as [Hlast|_]; [lia|].
    specialize (IH remaining (S attempt)).
    replace (S attempt + k) with (attempt + S k) in IH by lia.
    destruct (run_from remaining (S attempt)) as [later final].
    destruct IH as (Hc & Hb & Hfinal); [lia|lia| |assumption|].
    + intros j Hj. apply Hfail. lia.
    + cbn [calls backoffs seq map]. now rewrite Hc, Hb, Hfinal.
Qed.

Lemma attempts_exhausted remaining : forall attempt,
  attempt + remaining = retries ->
  0 < remaining ->
  (forall j, attempt <= j < retries -> func j = RaisesRequestException) ->
  let (actions, final) := run_from remaining attempt in
  final = PyFalse /\
  calls actions = remaining /\
  backoffs actions = map backoff_of (seq attempt (remaining - 1)).
Proof.
  induction remaining as [|remaining IH]; intros attempt Hsum Hpos Hfail; [lia|].
  cbn [attempts]. rewrite (Hfail attempt) by lia.
  destruct (Nat.eqb_spec attempt (retries - 1)) as [Hlast|Hmore].
  - assert (remaining = 0) by lia. subst remaining. cbn. auto.
  - specialize (IH (S attempt)).
    destruct (run_from remaining (S attempt)) as [later final].
    destruct IH as (Hfinal & Hc & Hb); [lia|lia| |].
    + intros j Hj. apply Hfail. lia.
    + cbn [calls backoffs]. rewrite Hc, Hb.
      replace (S remaining - 1) with (S (remaining - 1)) by lia. cbn [seq map].
      auto.
Qed.

End Retry.

(** X11.  However the decorated function behaves, it is called at most [retries]
    times, with a pause of at most 5 seconds between two calls and none
    after the last; with [retries = 0] it is not called and the wrapper
    returns [None], otherwise the wrapper never returns [None]. *)
Theorem retry_bounds A (func : nat -> outcome A) retries :
  let (actions, final) := wrapper A func retries in
  calls actions <= retries /\
  List.length (backoffs actions) = calls actions - 1 /\
  Forall (fun seconds => seconds <= 5) (backoffs actions) /\
  (retries = 0 -> actions = [] /\ final = PyNone) /\
  (0 < retries -> final <> PyNone).
Proof.
  unfold wrapper.
  pose proof (attempts_bounds A func retries retries 0 eq_refl) as H.
  destruct retries as [|n].
  - cbn. repeat split; auto; try lia.
  - destruct (attempts A func (S n) (S n) 0) as [actions final].
    destruct H as (Hc & Hb & Hall & Hsome).
    repeat split; try assumption; try discriminate.
    now apply Hsome.
Qed.

(** X12.  The first call that does not raise [RequestException] decides: after
    [k] failed requests the wrapper has called the function [k + 1] times,
    has paused 1, 2, 4, 5, 5, ... seconds between the calls, and returns
    the function's result ([True] for [None]) or, when that call raised
    something else, [False] without another try. *)
Theorem retry_first_decisive_call A (func : nat -> outcome A) retries k :
  k < retries ->
  (forall j, j < k -> func j = RaisesRequestException) ->
  func k <> RaisesRequestException ->
  let (actions, final) := wrapper A func retries in
  calls actions = S k /\
  backoffs actions = map backoff_of (seq 0 k) /\
  final = match func k with
          | Returns (Some result) => Result result
          | Returns None => PyTrue
          | _ => PyFalse
          end.
Proof.
  intros Hk Hfail Hdecides. unfold wrapper.
  apply (attempts_first_decisive A func retries k retries 0); auto.
  intros j Hj. apply Hfail. lia.
Qed.

Lemma retry_first_decisive_call_witness :
  2 < 3 /\
  (forall j, j < 2 -> MoreSamples.third_time_lucky j = RaisesRequestException) /\
  MoreSamples.third_time_lucky 2 <> RaisesRequestException /\
  let (actions, final) := wrapper bool MoreSamples.third_time_lucky 3 in
  calls actions = 3 /\ backoffs actions = [1; 2] /\ final = PyTrue.
Proof.
  assert (Hk : 2 < 3) by lia.
  assert (Hfail : forall j, j < 2 ->
                    MoreSamples.third_time_lucky j = RaisesRequestException).
  { intros [|[|j]] Hj; [reflexivity|reflexivity|lia]. }
  assert (Hdecides : MoreSamples.third_time_lucky 2 <> RaisesRequestException)
    by discriminate.
  split; [exact Hk|]. split; [exact Hfail|]. split; [exact Hdecides|].
  exact (retry_first_decisive_call bool MoreSamples.third_time_lucky 3 2
           Hk Hfail Hdecides).
Defined.

(** X13.  When every one of the [retries] calls raises [RequestException], the
    wrapper returns [False] after exactly [retries] calls and
    [retries - 1] pauses: it does not sleep after the last failure. *)
Theorem retry_exhausted A (func : nat -> outcome A) retries :
  0 < retries ->
  (forall j, j < retries -> func j = RaisesRequestException) ->
  let (actions, final) := wrapper A func retries in
  final = PyFalse /\
  calls actions = retries /\
  backoffs actions = map backoff_of (seq 0 (retries - 1)).
Proof.
  intros Hpos Hfail. unfold wrapper.
  apply (attempts_exhausted A func retries retries 0); auto.
  intros j Hj. apply Hfail. lia.
Qed.

Lemma retry_exhausted_witness :
  0 < 3 /\
  (forall j, j < 3 -> MoreSamples.never_answers j = RaisesRequestException) /\
  let (actions, final) := wrapper bool MoreSamples.never_answers 3 in
  final = PyFalse /\ calls actions = 3 /\ backoffs actions = [1; 2].
Proof.
  assert (Hpos : 0 < 3) by lia.
  assert (Hfail : forall j, j < 3 ->
                    MoreSamples.never_answers j = RaisesRequestException)
    by reflexivity.
  split; [exact Hpos|]. split; [exact Hfail|].
  exact (retry_exhausted bool MoreSamples.never_answers 3 Hpos Hfail).
Defined.

End RetryFacts.

(* ------------------------------------------------------------------ *)
(** ** Pace, sleeps and the end of the generator *)

Module PacingFacts.
Import Server GeneratorFacts.
Local Open Scope Q_scope.

(** X14.  Whatever the model name, the pace is one of the configured speeds:
    between 14 and 200 tokens a second, so never zero, and 15 for every
    name that contains "slow", whatever else the name says. *)
Theorem output_speed_bounds model_name :
  14 <= output_speed_of model_name <= 200 /\
  (str_in (py "slow") model_name = true -> output_speed_of model_name = 15).
Proof.
  unfold output_speed_of. destruct (str_in (py "slow") model_name).
  - split; [split; discriminate|reflexivity].
  - split; [|discriminate].
    unfold MODEL_OUTPUT_SPEEDS, DEFAULT_OUTPUT_SPEED. cbn [dict_get].
    repeat match goal with
           | |- context [if ?b then _ else _] => destruct b
           end; split; discriminate.
Qed.

Lemma output_speed_positive model_name : 0 < output_speed_of model_name.
Proof.
  unfold output_speed_of. destruct (str_in (py "slow") model_name);
    [reflexivity|].
  unfold MODEL_OUTPUT_SPEEDS, DEFAULT_OUTPUT_SPEED. cbn [dict_get].
  repeat match goal with
         | |- context [if ?b then _ else _] => destruct b
         end; reflexivity.
Qed.

Lemma sleeps_no_print (b : bool) (line : log_line) :
  sleeps (if b then [Print line] else []) = [].
Proof. now destruct b. Qed.

Section Loop.

Context {ENCODER : Encoding}.
Variable clock : nat -> Q.
Variable tokens : list N.
Variable output_speed : Q.
Variable debug_mode : bool.
Variable smoothing_factor : Q.

Local Abbreviation timing := (timing_adjustment output_speed debug_mode smoothing_factor).
Local Abbreviation body := (loop_body clock tokens output_speed debug_mode smoothing_factor).
Local Abbreviation loop := (while_loop clock tokens output_speed debug_mode smoothing_factor).

Lemma timing_sleeps st expected :
  Forall (fun d => 0 <= d) (sleeps (fst (timing st expected))) /\
  (0 <= last_delay st -> 0 <= snd (timing st expected)).
Proof.
  unfold timing_adjustment.
  destruct (Qgtb _ _); [|destruct (Qltb _ _)]; cbn [fst snd sleeps];
    rewrite ?sleeps_no_print; split; auto.
  - constructor; [apply Q.le_max_r|constructor].
  - intros _. apply Q.le_max_r.
Qed.

Lemma loop_body_sleeps st :
  sleeps (fst (body st)) = sleeps (fst (timing st
    ((clock (S (i st)) - start_time clock) * output_speed))) /\
  last_delay (snd (body st)) = snd (timing st
    ((clock (S (i st)) - start_time clock) * output_speed)).
Proof.
  unfold loop_body. cbv zeta.
  destruct (timing _ _) as [adjust delay].
  destruct (nth_error tokens (i st)) as [t|];
    [destruct (decode_strict (token_buffer st ++ [t]))|];
    cbn [fst snd sleeps last_delay]; rewrite ?sleeps_app, ?app_nil_r; auto.
Qed.

Lemma while_loop_sleeps fuel : forall st es heads final,
  loop fuel st = (es, heads, final) ->
  0 <= last_delay st ->
  Forall (fun d => 0 <= d) (sleeps es) /\ 0 <= last_delay final.
Proof.
  induction fuel as [|fuel IH]; intros st es heads final Hrun Hdelay;
    cbn [while_loop] in Hrun.
  - injection Hrun as <- _ <-. split; [constructor|assumption].
  - destruct (i st <? List.length tokens)%nat.
    + pose proof (loop_body_sleeps st) as [Hs Hd].
      pose proof (timing_sleeps st
                    ((clock (S (i st)) - start_time clock) * output_speed))
        as [Hnn Hnext].
      destruct (body st) as [es1 st1]. cbn [fst snd] in Hs, Hd.
      destruct (loop fuel st1) as [[es2 heads2] final2] eqn:Hrest.
      injection Hrun as <- _ <-.
      destruct (IH _ _ _ _ Hrest) as [Hall Hfinal].
      * rewrite Hd. now apply Hnext.
      * split; [|assumption]. rewrite sleeps_app. apply Forall_app.
        split; [now rewrite Hs|assumption].
    + injection Hrun as <- _ <-. split; [constructor|assumption].
Qed.

(** Every message accounts for at least one token. *)
Lemma while_loop_messages fuel : forall st es heads final,
  loop fuel st = (es, heads, final) ->
  (List.length (yielded es) + tokens_sent st <= tokens_sent final)%nat.
Proof.
  induction fuel as [|fuel IH]; intros st es heads final Hrun;
    cbn [while_loop] in Hrun.
  - injection Hrun as <- _ <-. cbn. lia.
  - destruct (Nat.ltb_spec (i st) (List.length tokens)) as [Hlt|Hge].
    + destruct (nth_error_in_range tokens (i st) Hlt) as [t Ht].
      pose proof (loop_body_token clock tokens output_speed debug_mode
                    smoothing_factor st t Ht) as Hbody. cbv zeta in Hbody.
      destruct (body st) as [es1 st1]. destruct Hbody as [_ Hbody].
      destruct (loop fuel st1) as [[es2 heads2] final2] eqn:Hrest.
      injection Hrun as <- _ <-. specialize (IH _ _ _ _ Hrest).
      rewrite yielded_app, length_app.
      destruct (decode_strict (token_buffer st ++ [t]));
        destruct Hbody as (Hy & _ & Hts); rewrite Hy; rewrite Hts in IH;
        rewrite ?length_app in IH; cbn [List.length] in *; lia.
    + injection Hrun as <- _ <-. cbn. lia.
Qed.

End Loop.

(** The state in which the loop of a run ends. *)
Lemma run_end {ENCODER : Encoding} clock T model_name debug factor :
  exists streamed heads st,
    while_loop clock (encode T) (output_speed_of model_name) debug factor
      (List.length (encode T)) initial_state = (streamed, heads, st) /\
    (tokens_sent st + List.length (token_buffer st) = List.length (encode T))%nat /\
    snd (flush st) = List.length (encode T).
Proof.
  destruct (while_loop _ _ _ _ _ _ _) as [[streamed heads] st] eqn:Hrun.
  exists streamed, heads, st. split; [reflexivity|].
  pose proof (while_loop_exit _ _ _ _ _ _ _ _ _ _ Hrun eq_refl) as Hexit.
  destruct (while_loop_progress _ _ _ _ _ _ _ _ _ _ Hrun) as ([Hsum _] & _).
  { split; cbn; lia. }
  split; [lia|]. unfold flush. destruct (token_buffer st) eqn:E; cbn [snd].
  - cbn in Hsum. lia.
  - lia.
Qed.

Lemma sleeps_final_logging clock tokens debug st sent :
  sleeps (fst (final_logging clock tokens debug st sent)) = [].
Proof.
  unfold final_logging. destruct debug; cbn [negb fst]; [|reflexivity].
  destruct (sent mod 20 =? 0)%nat; [destruct (List.length tokens =? 0)%nat|];
    cbn [fst]; try reflexivity;
    destruct (Qeq_bool _ _); cbn [fst]; rewrite ?sleeps_app; reflexivity.
Qed.

(** X16.  When the generator is through, [tokens_sent] is the token count of the
    response text, for every tokenizer; and it has sent at most one
    message per token. *)
Theorem every_token_is_sent {ENCODER : Encoding} clock
    (response_text model_name : text) debug_mode smoothing_factor :
  let r := _generate_streaming_response clock response_text model_name
             debug_mode smoothing_factor in
  last (tokens_sent_history r) 0%nat = ServerTools._get_token_count response_text /\
  (List.length (yielded (effects r))
   <= ServerTools._get_token_count response_text)%nat.
Proof.
  cbv zeta. unfold ServerTools._get_token_count.
  rewrite generator_yields. unfold _generate_streaming_response.
  destruct (run_end clock response_text model_name debug_mode smoothing_factor)
    as (streamed & heads & st & Hrun & Hsum & Hsent).
  rewrite Hrun.
  pose proof (while_loop_messages _ _ _ _ _ _ _ _ _ _ Hrun) as Hcount.
  cbn [initial_state tokens_sent] in Hcount.
  assert (Hflush : (List.length (yielded (fst (flush st)))
                    <= List.length (token_buffer st))%nat).
  { rewrite flush_yields. destruct (token_buffer st); cbn [List.length]; lia. }
  destruct (flush st) as [flushed sent]. cbn [fst snd] in *.
  destruct (final_logging _ _ _ _ _) as [logged ending].
  cbn [tokens_sent_history]. split.
  - replace (map tokens_sent heads ++ [tokens_sent st; sent])
      with ((map tokens_sent heads ++ [tokens_sent st]) ++ [sent])
      by (now rewrite <- app_assoc).
    now rewrite last_last.
  - rewrite length_app. lia.
Qed.

End PacingFacts.

(* ------------------------------------------------------------------ *)
(** ** UTF-8: the encoder undoes the decoder *)

Module Utf8Inverse.
Import Utf8 Utf8Facts.

Lemma is_cont_spec b : is_cont b = true <-> 0x80 <= b < 0xC0.
Proof.
  unfold is_cont. rewrite andb_true_iff, N.leb_le, N.ltb_lt. tauto.
Qed.

(** What the decoder has read when it leaves a pending state. *)
Lemma decode_pending_last acc lo bs t :
  decode_from (Pending 0 acc lo) bs = Some t ->
  exists b rest t',
    bs = b :: rest /\ 0x80 <= b < 0xC0 /\
    lo <= acc * 64 + (b - 0x80) /\ is_scalar (acc * 64 + (b - 0x80)) = true /\
    t = (acc * 64 + (b - 0x80)) :: t' /\ decode_from Start rest = Some t'.
Proof.
  destruct bs as [|b rest]; [discriminate|]. cbn [decode_from step].
  destruct (is_cont b) eqn:Hc; [|discriminate]. apply is_cont_spec in Hc.
  cbv zeta.
  destruct ((lo <=? acc * 64 + (b - 0x80)) && is_scalar (acc * 64 + (b - 0x80)))
    eqn:Hok; [|discriminate].
  apply andb_true_iff in Hok. destruct Hok as [Hlo Hs]. apply N.leb_le in Hlo.
  destruct (decode_from Start rest) as [t'|] eqn:E; [|discriminate].
  cbn. intros H. injection H as <-. exists b, rest, t'. auto 10.
Qed.

Lemma decode_pending_more k acc lo bs t :
  decode_from (Pending (S k) acc lo) bs = Some t ->
  exists b rest,
    bs = b :: rest /\ 0x80 <= b < 0xC0 /\
    decode_from (Pending k (acc * 64 + (b - 0x80)) lo) rest = Some t.
Proof.
  destruct bs as [|b rest]; [discriminate|]. cbn [decode_from step].
  destruct (is_cont b) eqn:Hc; [|discriminate]. apply is_cont_spec in Hc.
  cbv zeta. intros H. exists b, rest. auto.
Qed.

Lemma encode_decode_bounded n : forall bs t,
  (List.length bs <= n)%nat -> decode_from Start bs = Some t -> encode t = bs.
Proof.
  induction n as [|n IH]; intros bs t Hlen H;
    (destruct bs as [|b1 r1]; [cbn in H; now injection H as <-|]);
    cbn [List.length] in Hlen; [lia|].
  cbn [decode_from] in H. unfold step in H.
  destruct (b1 <? 0x80) eqn:H1; [|destruct (b1 <? 0xC2) eqn:H2;
    [discriminate|destruct (b1 <? 0xE0) eqn:H3;
      [|destruct (b1 <? 0xF0) eqn:H4;
        [|destruct (b1 <? 0xF5) eqn:H5; [|discriminate]]]]]; reflect_N.
  - destruct (decode_from Start r1) as [t'|] eqn:E; [|discriminate].
    cbn in H. injection H as <-. cbn [encode flat_map].
    fold (encode t'). rewrite (IH r1 t'); [|lia|exact E].
    unfold encode_char. now rewrite (ltb_true _ _ H1).
  - apply decode_pending_last in H.
    destruct H as (b2 & r2 & t' & -> & Hb2 & Hlo & Hs & -> & E).
    cbn [encode flat_map]. fold (encode t').
    rewrite (IH r2 t'); [|cbn [List.length] in Hlen; lia|exact E].
    set (c := (b1 - 0xC0) * 64 + (b2 - 0x80)) in *.
    unfold encode_char.
    rewrite (ltb_false c 0x80) by lia. rewrite (ltb_true c 0x800) by lia.
    cbn [app]. f_equal; [lia|f_equal; lia].
  - apply decode_pending_more in H. destruct H as (b2 & r2 & -> & Hb2 & H).
    apply decode_pending_last in H.
    destruct H as (b3 & r3 & t' & -> & Hb3 & Hlo & Hs & -> & E).
    cbn [encode flat_map]. fold (encode t').
    rewrite (IH r3 t'); [|cbn [List.length] in Hlen; lia|exact E].
    set (c := ((b1 - 0xE0) * 64 + (b2 - 0x80)) * 64 + (b3 - 0x80)) in *.
    unfold encode_char.
    rewrite (ltb_false c 0x80) by lia. rewrite (ltb_false c 0x800) by lia.
    rewrite (ltb_true c 0x10000) by lia.
    cbn [app]. f_equal; [lia|f_equal; [lia|f_equal; lia]].
  - apply decode_pending_more in H. destruct H as (b2 & r2 & -> & Hb2 & H).
    apply decode_pending_more in H. destruct H as (b3 & r3 & -> & Hb3 & H).
    apply decode_pending_last in H.
    destruct H as (b4 & r4 & t' & -> & Hb4 & Hlo & Hs & -> & E).
    cbn [encode flat_map]. fold (encode t').
    rewrite (IH r4 t'); [|cbn [List.length] in Hlen; lia|exact E].
    set (c := (((b1 - 0xF0) * 64 + (b2 - 0x80)) * 64 + (b3 - 0x80)) * 64
              + (b4 - 0x80)) in *.
    unfold encode_char.
    rewrite (ltb_false c 0x80) by lia. rewrite (ltb_false c 0x800) by lia.
    rewrite (ltb_false c 0x10000) by lia.
    cbn [app]. f_equal; [lia|f_equal; [lia|f_equal; [lia|f_equal; lia]]].
Qed.

(** [str.encode] inverts [bytes.decode]: octets that decode are the UTF-8
    form of the text they decode to. *)
Lemma encode_decode bs t : decode bs = Some t -> encode t = bs.
Proof. apply (encode_decode_bounded (List.length bs)). apply le_n. Qed.

(** Only scalar values come out of the decoder. *)
Lemma decode_from_scalar bs : forall st t,
  decode_from st bs = Some t -> forallb is_scalar t = true.
Proof.
  induction bs as [|b rest IH]; intros st t H; cbn [decode_from] in H.
  - destruct st; [|discriminate]. now injection H as <-.
  - destruct (step st b) as [|c|st'] eqn:Hstep; [discriminate| |eauto].
    destruct (decode_from Start rest) as [t'|] eqn:E; [|discriminate].
    cbn in H. injection H as <-. cbn [forallb]. rewrite (IH _ _ E), andb_true_r.
    unfold step in Hstep. destruct st as [|k acc lo].
    + destruct (b <? 0x80) eqn:H1.
      * injection Hstep as <-. apply is_scalar_spec. reflect_N. lia.
      * repeat match type of Hstep with
               | (if ?x then _ else _) = _ => destruct x
               end; discriminate.
    + destruct (is_cont b); [|discriminate]. cbv zeta in Hstep.
      destruct k; [|discriminate].
      destruct (_ && _) eqn:Hok; [|discriminate].
      injection Hstep as <-. now apply andb_true_iff in Hok.
Qed.

End Utf8Inverse.

(* ------------------------------------------------------------------ *)
(** ** What the messages of the loop carry *)

Module StreamFacts.
Import Server GeneratorFacts PacingFacts.

Lemma encode_app a b : Utf8.encode (a ++ b) = Utf8.encode a ++ Utf8.encode b.
Proof. apply flat_map_app. Qed.

Section Loop.

Context {ENCODER : Encoding}.
Variable clock : nat -> Q.
Variable tokens : list N.
Variable output_speed : Q.
Variable debug_mode : bool.
Variable smoothing_factor : Q.

Local Abbreviation body := (loop_body clock tokens output_speed debug_mode smoothing_factor).
Local Abbreviation loop := (while_loop clock tokens output_speed debug_mode smoothing_factor).

(** The octets of the chunks sent and of the buffer left are those of the
    buffer and the tokens the loop began with, whatever the tokens are. *)
Lemma while_loop_octets fuel : forall st es heads final,
  loop fuel st = (es, heads, final) ->
  (i st + fuel = List.length tokens)%nat ->
  token_buffer st = [] \/ decode_strict (token_buffer st) = None ->
  exists chunks,
    yielded es = map _format_sse_message chunks /\
    forallb (forallb Utf8.is_scalar) chunks = true /\
    Utf8.encode (List.concat chunks) ++ decode_bytes (token_buffer final)
    = decode_bytes (token_buffer st ++ skipn (i st) tokens) /\
    (token_buffer final = [] \/ decode_strict (token_buffer final) = None).
Proof.
  induction fuel as [|fuel IH]; intros st es heads final Hrun Hfuel Hbuf;
    cbn [while_loop] in Hrun.
  - injection Hrun as <- _ <-. exists [].
    rewrite Nat.add_0_r in Hfuel. rewrite Hfuel, skipn_all, app_nil_r. auto.
  - destruct (Nat.ltb_spec (i st) (List.length tokens)) as [Hlt|Hge]; [|lia].
    destruct (nth_error_in_range tokens (i st) Hlt) as [t Ht].
    pose proof (loop_body_token clock tokens output_speed debug_mode
                  smoothing_factor st t Ht) as Hbody. cbv zeta in Hbody.
    destruct (body st) as [es1 st1]. destruct Hbody as [Hi Hbody].
    destruct (loop fuel st1) as [[es2 heads2] final2] eqn:Hrest.
    injection Hrun as <- _ <-.
    rewrite (nth_error_skipn _ _ _ Ht).
    change (t :: skipn (S (i st)) tokens) with ([t] ++ skipn (S (i st)) tokens).
    rewrite app_assoc.
    destruct (decode_strict (token_buffer st ++ [t])) as [chunk|] eqn:Hchunk.
    + destruct Hbody as (Hy & Hb & _).
      destruct (IH st1 es2 heads2 final2 Hrest) as (chunks & Hys & Hsc & Hoct & Hfin).
      * lia.
      * left. exact Hb.
      * exists (chunk :: chunks). rewrite yielded_app, Hy, Hys.
        split; [reflexivity|]. split; [|split; [|exact Hfin]].
        -- cbn [forallb]. rewrite Hsc, andb_true_r.
           unfold decode_strict, Utf8.decode in Hchunk.
           exact (Utf8Inverse.decode_from_scalar _ _ _ Hchunk).
        -- cbn [List.concat]. rewrite encode_app, <- app_assoc, Hoct, Hb, Hi.
           cbn [app]. rewrite decode_bytes_app. f_equal.
           now apply Utf8Inverse.encode_decode.
    + destruct Hbody as (Hy & Hb & _).
      destruct (IH st1 es2 heads2 final2 Hrest) as (chunks & Hys & Hsc & Hoct & Hfin).
      * lia.
      * right. now rewrite Hb.
      * exists chunks. rewrite yielded_app, Hy, Hys, Hoct, Hb, Hi. auto.
Qed.

End Loop.

(** X19.  Token-boundary safety, for every tokenizer: each message sent from the
    loop carries a text of whole characters, and the UTF-8 octets of these
    texts, in order, are the octets of the tokens up to a tail of tokens
    that does not decode; that tail alone goes out through the replacing
    decoder, as the last message. *)
Theorem chunks_are_whole_characters {ENCODER : Encoding} clock
    (response_text model_name : text) debug_mode smoothing_factor :
  exists chunks leftover,
    yielded (effects (_generate_streaming_response clock response_text
                        model_name debug_mode smoothing_factor))
    = map _format_sse_message chunks
      ++ match leftover with
         | [] => []
         | _ :: _ => [_format_sse_message (decode_default leftover)]
         end /\
    forallb (forallb Utf8.is_scalar) chunks = true /\
    Utf8.encode (List.concat chunks) ++ decode_bytes leftover
    = decode_bytes (encode response_text) /\
    (leftover = [] \/ decode_strict leftover = None).
Proof.
  rewrite generator_yields.
  destruct (while_loop _ _ _ _ _ _ _) as [[streamed heads] st] eqn:Hrun.
  destruct (while_loop_octets _ _ _ _ _ _ _ _ _ _ Hrun eq_refl)
    as (chunks & Hy & Hsc & Hoct & Hfin); [now left|].
  exists chunks, (token_buffer st). rewrite flush_yields, Hy.
  cbn [initial_state token_buffer i skipn app] in Hoct. auto.
Qed.

(** *** Before the first message *)

Lemma body_not_ahead_quiet {ENCODER : Encoding} clock tokens output_speed
    debug_mode smoothing_factor st :
  (of_int (tokens_sent st) <= (clock (S (i st)) - clock 0%nat) * output_speed)%Q ->
  sleeps (fst (loop_body clock tokens output_speed debug_mode smoothing_factor st))
  = [].
Proof.
  intros Hbehind. rewrite (proj1 (loop_body_sleeps _ _ _ _ _ st)).
  unfold timing_adjustment, start_time.
  rewrite (RateControlClaims.Qgtb_false _ _ Hbehind).
  destruct (Qltb _ _); cbn [fst]; [apply sleeps_no_print|reflexivity].
Qed.

Lemma until_yield_quiet es : forall rest,
  sleeps es = [] ->
  (yielded es = [] -> sleeps (fst (EventLoop.until_yield rest)) = []) ->
  sleeps (fst (EventLoop.until_yield (es ++ rest))) = [].
Proof.
  induction es as [|e es IH]; intros rest Hs Hrest; cbn [app].
  - now apply Hrest.
  - destruct e; cbn [sleeps yielded EventLoop.until_yield] in *;
      try discriminate; try reflexivity.
    + specialize (IH rest Hs Hrest).
      destruct (EventLoop.until_yield (es ++ rest)). exact IH.
    + specialize (IH rest Hs Hrest).
      destruct (EventLoop.until_yield (es ++ rest)). exact IH.
Qed.

Lemma while_loop_quiet_start {ENCODER : Encoding} clock tokens output_speed
    debug_mode smoothing_factor fuel : forall st es heads final rest,
  (forall n, clock 0%nat <= clock n)%Q ->
  (0 <= output_speed)%Q ->
  while_loop clock tokens output_speed debug_mode smoothing_factor fuel st
  = (es, heads, final) ->
  tokens_sent st = 0%nat ->
  sleeps (fst (EventLoop.until_yield rest)) = [] ->
  sleeps (fst (EventLoop.until_yield (es ++ rest))) = [].
Proof.
  induction fuel as [|fuel IH]; intros st es heads final rest Hclock Hspeed
    Hrun Hsent Hrest; cbn [while_loop] in Hrun.
  - now injection Hrun as <- _ _.
  - destruct (Nat.ltb_spec (i st) (List.length tokens)) as [Hlt|Hge];
      [|now injection Hrun as <- _ _].
    destruct (nth_error_in_range tokens (i st) Hlt) as [t Ht].
    pose proof (loop_body_token clock tokens output_speed debug_mode
                  smoothing_factor st t Ht) as Hbody. cbv zeta in Hbody.
    pose proof (body_not_ahead_quiet clock tokens output_speed
                  debug_mode smoothing_factor st) as Hquiet.
    destruct (loop_body clock tokens output_speed debug_mode smoothing_factor st)
      as [es1 st1].
    destruct Hbody as [_ Hbody].
    destruct (while_loop clock tokens output_speed debug_mode smoothing_factor
                fuel st1) as [[es2 heads2] final2] eqn:Hnext.
    injection Hrun as <- _ _. rewrite <- app_assoc.
    apply until_yield_quiet.
    + apply Hquiet. rewrite Hsent.
      apply Qmult_le_0_compat; [|exact Hspeed].
      specialize (Hclock (S (i st))). lra.
    + intros Hnone. apply (IH st1 es2 heads2 final2 rest); auto.
      destruct (decode_strict (token_buffer st ++ [t]));
        destruct Hbody as (Hy & _ & Hts); [rewrite Hy in Hnone; discriminate|].
      now rewrite Hts.
Qed.

(** X20.  The first message is not held back: under a clock that never reads
    less than at the start, the generator does not sleep before its first
    [yield]. *)
Theorem no_sleep_before_first_message {ENCODER : Encoding} clock
    (response_text model_name : text) debug_mode smoothing_factor :
  (forall n, clock 0%nat <= clock n)%Q ->
  sleeps (fst (EventLoop.until_yield
                 (effects (_generate_streaming_response clock response_text
                             model_name debug_mode smoothing_factor))))
  = [].
Proof.
  intros Hclock. unfold _generate_streaming_response.
  destruct (while_loop _ _ _ _ _ _ _) as [[streamed heads] st] eqn:Hrun.
  pose proof (sleeps_final_logging clock (encode response_text) debug_mode st
                (snd (flush st))) as Hlog.
  assert (Hflush : sleeps (fst (flush st)) = [])
    by (unfold flush; now destruct (token_buffer st)).
  destruct (flush st) as [flushed sent]. cbn [fst snd] in *.
  destruct (final_logging _ _ _ _ _) as [logged ending]. cbn [fst effects] in *.
  change (ReadClock (clock 0%nat) :: ?b ++ ?rest)
    with ((ReadClock (clock 0%nat) :: b) ++ rest).
  apply until_yield_quiet; [now destruct debug_mode|]. intros _.
  apply (while_loop_quiet_start _ _ _ _ _ _ _ _ _ _ _ Hclock
           (Qlt_le_weak _ _ (output_speed_positive model_name)) Hrun eq_refl).
  apply until_yield_quiet; [exact Hflush|]. intros _.
  rewrite <- (app_nil_r logged). now apply until_yield_quiet.
Qed.

Lemma no_sleep_before_first_message_witness :
  (forall n, Samples.ticking_clock 0%nat <= Samples.ticking_clock n)%Q /\
  sleeps (fst (EventLoop.until_yield
                 (effects (_generate_streaming_response (ENCODER := byte_level)
                             Samples.ticking_clock Samples.mixed_text
                             (py "slow-o1") true (7 # 10)%Q))))
  = [].
Proof.
  assert (Hclock : (forall n, Samples.ticking_clock 0%nat
                              <= Samples.ticking_clock n)%Q).
  { intros n. unfold Samples.ticking_clock, Qle. cbn. lia. }
  split; [exact Hclock|].
  exact (no_sleep_before_first_message (ENCODER := byte_level)
           Samples.ticking_clock Samples.mixed_text (py "slow-o1") true
           (7 # 10)%Q Hclock).
Defined.

End StreamFacts.

(* ------------------------------------------------------------------ *)
(** ** One message on the wire *)

Module WireFacts.
Import Json JsonFacts Server ServerTools.

Lemma all_chars_app f a b :
  all_chars f (a ++ b)%string = all_chars f a && all_chars f b.
Proof.
  induction a as [|x a IH]; cbn [append all_chars]; [reflexivity|].
  now rewrite IH, andb_assoc.
Qed.

Lemma printable_hexdigit d : d < 16 -> printable (hexdigit d) = true.
Proof.
  intros H. destruct d as [|p]; [reflexivity|].
  do 4 (destruct p as [p|p|]; try reflexivity; try lia).
Qed.

Lemma printable_backslash_u n :
  n < 65536 -> all_chars printable (backslash_u n) = true.
Proof.
  intros Hn. unfold backslash_u, format_04x. cbn [all_chars].
  rewrite !printable_hexdigit by lia. reflexivity.
Qed.

Lemma surrogate_units n :
  N.lor 0xD800 (N.land (N.shiftr n 10) 0x3FF) < 65536 /\
  N.lor 0xDC00 (N.land n 0x3FF) < 65536.
Proof.
  change 0x3FF with (N.ones 10). rewrite !N.land_ones.
  change 0xD800 with (N.shiftl 54 10). change 0xDC00 with (N.shiftl 55 10).
  rewrite !lor_shiftl_low by (apply N.mod_lt; discriminate).
  change (2 ^ 10) with 1024. lia.
Qed.

Lemma printable_escape_char c : all_chars printable (escape_char c) = true.
Proof.
  unfold escape_char.
  repeat match goal with
         | |- context [if ?b then _ else _] =>
             match b with
             | context [c] => destruct b eqn:?
             end
         end; reflect_N; try reflexivity.
  - unfold str1. cbn [all_chars]. unfold printable.
    rewrite N_ascii_embedding by lia. rewrite andb_true_r.
    apply andb_true_iff. split; now apply N.leb_le.
  - apply printable_backslash_u. lia.
  - cbv zeta. destruct (surrogate_units (c - 0x10000)) as [H1 H2].
    now rewrite all_chars_app, !printable_backslash_u.
Qed.

Lemma printable_escape t : all_chars printable (escape t) = true.
Proof.
  induction t as [|c t IH]; cbn [escape]; [reflexivity|].
  now rewrite all_chars_app, printable_escape_char, IH.
Qed.

(** X21.  Whatever the chunk text holds, newlines and characters outside ASCII
    included, its message is one line of printable ASCII followed by an
    empty line, the frame of one server-sent event. *)
Theorem message_is_one_line content :
  exists line,
    _format_sse_message content = (line ++ str2 newline newline)%string /\
    all_chars printable line = true.
Proof.
  pose proof (format_sse_message_parts content) as Hparts. cbv zeta in Hparts.
  set (opening := (("data: {" ++ str1 dquote ++ "choices" ++ str1 dquote ++ ": [{"
                    ++ str1 dquote ++ "delta" ++ str1 dquote ++ ": {"
                    ++ str1 dquote ++ "content" ++ str1 dquote ++ ": "
                    ++ str1 dquote)%string)) in Hparts.
  exists (opening ++ escape content ++ String dquote "}}]}")%string. split.
  - rewrite Hparts. rewrite (append_assoc opening).
    rewrite (append_assoc (escape content)). reflexivity.
  - rewrite all_chars_app, all_chars_app, printable_escape.
    apply andb_true_iff. split; [vm_compute|]; reflexivity.
Qed.

(** X22.  The client reads back what the server framed: the [content] of the
    message of a chunk text is that text, so different chunk texts have
    different messages. *)
Theorem client_reads_message_back content :
  forallb Utf8.is_scalar content = true ->
  Client.content_of_message (_format_sse_message content) = Some content /\
  forall other,
    forallb Utf8.is_scalar other = true ->
    _format_sse_message other = _format_sse_message content ->
    other = content.
Proof.
  intros Hs. split; [now apply content_of_format_sse_message|].
  intros other Ho Heq.
  pose proof (content_of_format_sse_message other Ho) as H1.
  rewrite Heq, content_of_format_sse_message in H1 by assumption.
  now injection H1.
Qed.

Lemma client_reads_message_back_witness :
  forallb Utf8.is_scalar Samples.mixed_text = true /\
  Client.content_of_message (_format_sse_message Samples.mixed_text)
  = Some Samples.mixed_text.
Proof.
  split; [reflexivity|].
  exact (proj1 (client_reads_message_back Samples.mixed_text eq_refl)).
Defined.

End WireFacts.

(* ------------------------------------------------------------------ *)
(** ** Recording and replaying *)

Module ReplayFacts.
Import Database Store Server GeneratorFacts DatabaseFacts LikeFacts StoreFacts.

Lemma ascii_lower_idem c : ascii_lower (ascii_lower c) = ascii_lower c.
Proof.
  unfold ascii_lower.
  destruct ((0x41 <=? c) && (c <=? 0x5A)) eqn:E; [|now rewrite E].
  reflect_N.
  replace ((0x41 <=? c + 32) && (c + 32 <=? 0x5A)) with false; [reflexivity|].
  symmetry. apply andb_false_iff. right. apply N.leb_gt. lia.
Qed.

Lemma ascii_lower_keeps c k :
  (k < 0x41 \/ 0x5A < k) -> (k < 0x61 \/ 0x7A < k) ->
  (ascii_lower c =? k) = (c =? k).
Proof.
  intros Hk1 Hk2. unfold ascii_lower.
  destruct ((0x41 <=? c) && (c <=? 0x5A)) eqn:E; [|reflexivity].
  reflect_N. rewrite (proj2 (N.eqb_neq (c + 32) k)) by lia.
  symmetry. apply N.eqb_neq. lia.
Qed.

(** [LIKE] does not tell the case of ASCII letters apart, in the pattern
    or in the text. *)
Lemma like_lower pattern : forall s,
  like (map ascii_lower pattern) (map ascii_lower s) = like pattern s.
Proof.
  induction pattern as [|p pattern IH]; intros s.
  - now destruct s.
  - cbn [map like]. rewrite (ascii_lower_keeps p 0x25) by lia.
    destruct (p =? 0x25).
    + induction s as [|c s IHs]; cbn [map].
      * pose proof (IH []) as H0. cbn [map] in H0. now rewrite H0.
      * pose proof (IH (c :: s)) as Hc. cbn [map] in Hc. now rewrite Hc, IHs.
    + destruct s as [|c s]; [reflexivity|]. cbn [map].
      rewrite (ascii_lower_keeps p 0x5F) by lia.
      now rewrite !ascii_lower_idem, IH.
Qed.

(** X25.  The locator does not tell the case of ASCII letters in the prompt
    apart: two prompts that differ only in that are answered alike. *)
Theorem prompt_case_is_ignored db prompt1 prompt2 requested_model :
  map ascii_lower prompt1 = map ascii_lower prompt2 ->
  _find_matching_response db prompt1 requested_model
  = _find_matching_response db prompt2 requested_model.
Proof.
  intros Hsame.
  assert (Hlike : forall s, like (search_param prompt1) s
                            = like (search_param prompt2) s).
  { intros s. rewrite <- (like_lower (search_param prompt1)).
    rewrite <- (like_lower (search_param prompt2)).
    unfold search_param. rewrite !map_app.
    f_equal. f_equal. f_equal. exact Hsame. }
  assert (E : search_conversations db prompt1 100 0
              = search_conversations db prompt2 100 0).
  { unfold search_conversations. cbv zeta. do 3 f_equal.
    apply filter_ext. intros r. now rewrite !Hlike. }
  unfold _find_matching_response. cbv zeta. now rewrite E.
Qed.

Lemma prompt_case_is_ignored_witness :
  map ascii_lower (py "What is 2+2?") = map ascii_lower (py "WHAT IS 2+2?") /\
  _find_matching_response Samples.one_exchange_db (py "What is 2+2?") (py "o1")
  = _find_matching_response Samples.one_exchange_db (py "WHAT IS 2+2?") (py "o1").
Proof.
  split; [reflexivity|].
  exact (prompt_case_is_ignored Samples.one_exchange_db (py "What is 2+2?")
           (py "WHAT IS 2+2?") (py "o1") eq_refl).
Defined.

End ReplayFacts.

(* ------------------------------------------------------------------ *)
(** ** SQLite's LIKE function *)

Module SqliteFacts.
Import Database Sqlite LikeFacts.

Lemma text_value_no_nul s : ~ In 0 (text_value s).
Proof.
  induction s as [|c s IH]; cbn [text_value]; [tauto|].
  destruct (N.eqb_spec c 0) as [->|Hc]; cbn [In]; [tauto|].
  intros [H|H]; [congruence|tauto].
Qed.

Lemma text_value_id s : ~ In 0 s -> text_value s = s.
Proof.
  induction s as [|c s IH]; cbn [text_value In]; intros H; [reflexivity|].
  destruct (N.eqb_spec c 0) as [->|Hc]; [tauto|].
  rewrite IH; [reflexivity|tauto].
Qed.

(** A text that stands in a C string has no NUL. *)
Lemma str_in_text_value needle s :
  str_in needle (text_value s) = true -> ~ In 0 needle.
Proof.
  intros H Hin. apply str_in_spec in H. destruct H as (before & after & E).
  apply (text_value_no_nul s). rewrite E.
  apply in_or_app. right. apply in_or_app. now left.
Qed.

Lemma text_value_app a b :
  text_value (a ++ b)
  = if existsb (N.eqb 0) a then text_value a else a ++ text_value b.
Proof.
  induction a as [|c a IH]; cbn [app text_value existsb]; [reflexivity|].
  rewrite (N.eqb_sym 0 c).
  destruct (c =? 0); cbn [orb]; [reflexivity|].
  rewrite IH. now destruct (existsb (N.eqb 0) a).
Qed.

Lemma existsb_nul_false s : ~ In 0 s -> existsb (N.eqb 0) s = false.
Proof.
  intros H. destruct (existsb (N.eqb 0) s) eqn:E; [|reflexivity].
  apply existsb_exists in E. destruct E as (x & Hx & Hz).
  apply N.eqb_eq in Hz. subst x. tauto.
Qed.

(** Every text matches the pattern made of itself: a NUL in it cuts the
    pattern and the text at the same place. *)
Lemma like_function_search_param_self s :
  like_function (search_param s) s = true.
Proof.
  unfold like_function.
  change (search_param s) with ([0x25] ++ (s ++ [0x25])).
  rewrite text_value_app. cbn [existsb N.eqb orb app].
  apply like_percent. exists [], (text_value s). split; [reflexivity|].
  rewrite text_value_app.
  destruct (existsb (N.eqb 0) s) eqn:E.
  - apply like_refl.
  - assert (Hs : text_value s = s).
    { apply text_value_id. intros Hin.
      assert (existsb (N.eqb 0) s = true); [|congruence].
      apply existsb_exists. exists 0. split; [exact Hin|reflexivity]. }
    rewrite Hs. cbn [text_value N.eqb].
    rewrite <- (app_nil_r s) at 2. apply like_app_percent, like_refl.
Qed.

(** A query that stands in the C string of a text matches it. *)
Lemma like_function_of_substring query s :
  str_in query (text_value s) = true ->
  like_function (search_param query) s = true.
Proof.
  intros H. unfold like_function.
  rewrite (text_value_id (search_param query)).
  - now apply like_search_param_of_substring.
  - pose proof (str_in_text_value _ _ H) as Hq.
    change (search_param query) with ([0x25] ++ (query ++ [0x25])).
    intros Hin. apply in_app_or in Hin. destruct Hin as [[Hin|[]]|Hin]; [discriminate|].
    apply in_app_or in Hin. destruct Hin as [Hin|[Hin|[]]]; [tauto|discriminate].
Qed.

End SqliteFacts.

(* ------------------------------------------------------------------ *)
(** ** The search and the locator on SQLite *)

Module RuntimeSearchFacts.
Import Database Sqlite Runtime DatabaseFacts LikeFacts StoreFacts SqliteFacts.

(** What the query returns for a prompt that sqlite3 binds and SQLite
    takes as a pattern. *)
Lemma search_conversations_accepted db query limit offset :
  forallb Utf8.is_scalar query = true ->
  pattern_too_complex (search_param query) = false ->
  search_conversations db query limit offset
  = Return (firstn limit
              (skipn offset
                 (order_by_timestamp_desc
                    (filter (fun r => where_clause (search_param query) (conv r))
                            (left_join db))))).
Proof.
  intros Hs Hp. unfold search_conversations. cbv zeta.
  now rewrite Hs, Hp.
Qed.

(** When it raises: [UnicodeEncodeError] where the prompt is bound,
    [OperationalError] at the first row otherwise. *)
Lemma search_conversations_raises db query limit offset e :
  search_conversations db query limit offset = Raise e ->
  (e = UnicodeEncodeError /\ forallb Utf8.is_scalar query = false) \/
  (e = OperationalError /\ pattern_too_complex (search_param query) = true /\
   left_join db <> []).
Proof.
  unfold search_conversations. cbv zeta.
  destruct (forallb Utf8.is_scalar query); cbn [negb].
  - destruct (pattern_too_complex _); cbn [andb]; [|discriminate].
    destruct (left_join db); [discriminate|].
    intros H. injection H as <-. right. repeat split. discriminate.
  - intros H. injection H as <-. now left.
Qed.



End RuntimeSearchFacts.

(* ------------------------------------------------------------------ *)
(** ** The claims about the locator and the not-found error *)

Module LocatorClaims.
Import Database Sqlite Runtime DatabaseFacts LikeFacts StoreFacts SqliteFacts
       RuntimeSearchFacts.
Import PrimFloat.
#[local] Set Warnings "-inexact-float".







End LocatorClaims.

(* ------------------------------------------------------------------ *)
(** ** More on the search and the endpoint on SQLite *)

Module RuntimeStoreFacts.
Import Database Sqlite Store Runtime DatabaseFacts LikeFacts StoreFacts SqliteFacts
       RuntimeSearchFacts.
Import PrimFloat.
#[local] Set Warnings "-inexact-float".

(** X7.  Every exchange whose prompt or response, read as SQLite reads it
    (up to its first NUL), contains the query is found, whatever characters
    the query is made of, when sqlite3 binds the query, SQLite takes the
    pattern and the limit covers the table. *)
Theorem search_finds_substrings db query limit c :
  forallb Utf8.is_scalar query = true ->
  pattern_too_complex (search_param query) = false ->
  (List.length (left_join db) <= limit)%nat ->
  In c (conversations db) ->
  str_in query (text_value (prompt c))
  || str_in query (text_value (response c)) = true ->
  exists rows r,
    search_conversations db query limit 0 = Return rows /\
    In r rows /\ conv r = c.
Proof.
  intros Hscalar Hpattern Hlimit Hc Hsub.
  destruct (In_left_join_conv db c Hc) as (r & Hr & Hconv).
  rewrite (search_conversations_accepted db query limit 0 Hscalar Hpattern).
  eexists. exists r. split; [reflexivity|]. split; [|exact Hconv].
  cbn [skipn]. rewrite firstn_all2.
  - apply In_order_by, filter_In. split; [exact Hr|]. rewrite Hconv.
    unfold where_clause.
    apply orb_true_iff in Hsub. apply orb_true_iff.
    destruct Hsub as [H|H]; [left|right]; now apply like_function_of_substring.
  - rewrite (Permutation_length (order_by_perm _)).
    etransitivity; [apply filter_length_le|exact Hlimit].
Qed.

Lemma search_finds_substrings_witness :
  forallb Utf8.is_scalar (py "2+2") = true /\
  pattern_too_complex (search_param (py "2+2")) = false /\
  (List.length (left_join Samples.one_exchange_db) <= 20)%nat /\
  In Samples.arithmetic_exchange (conversations Samples.one_exchange_db) /\
  str_in (py "2+2") (text_value (prompt Samples.arithmetic_exchange))
  || str_in (py "2+2") (text_value (response Samples.arithmetic_exchange)) = true /\
  exists rows r,
    search_conversations Samples.one_exchange_db (py "2+2") 20 0 = Return rows /\
    In r rows /\ conv r = Samples.arithmetic_exchange.
Proof.
  assert (Hlimit : (List.length (left_join Samples.one_exchange_db) <= 20)%nat)
    by (vm_compute; lia).
  assert (Hin : In Samples.arithmetic_exchange
                  (conversations Samples.one_exchange_db))
    by (left; reflexivity).
  split; [reflexivity|]. split; [reflexivity|].
  split; [exact Hlimit|]. split; [exact Hin|]. split; [reflexivity|].
  exact (search_finds_substrings Samples.one_exchange_db (py "2+2") 20
           Samples.arithmetic_exchange eq_refl eq_refl Hlimit Hin eq_refl).
Defined.



End RuntimeStoreFacts.

(* ------------------------------------------------------------------ *)
(** ** The generator on its runtime *)

Module RuntimeGeneratorFacts.
Import Runtime PrimFloat.

Lemma yielded_concat es1 es2 : yielded (es1 ++ es2) = yielded es1 ++ yielded es2.
Proof.
  induction es1 as [|e es1 IH]; [reflexivity|].
  destruct e; cbn [app yielded]; now rewrite IH.
Qed.

Lemma sleeps_concat es1 es2 : sleeps (es1 ++ es2) = sleeps es1 ++ sleeps es2.
Proof.
  induction es1 as [|e es1 IH]; [reflexivity|].
  destruct e; cbn [app sleeps]; now rewrite IH.
Qed.

(** [time.sleep] raises nothing but [ValueError] and [OverflowError]. *)
Lemma time_sleep_raises secs e :
  time_sleep secs = Some e -> e = ValueError \/ e = OverflowError.
Proof.
  unfold time_sleep.
  repeat match goal with
         | |- context [if ?b then _ else _] => destruct b
         end; intros H; try discriminate; injection H as <-; auto.
Qed.

Lemma accepted_iff secs : accepted secs = true <-> time_sleep secs = None.
Proof. unfold accepted. destruct (time_sleep secs); split; congruence. Qed.

(** [max(d, 0)] is not below zero, whatever [d] is; it is NaN when [d]
    is. *)
Lemma max_0_not_below_zero d : PrimFloat.ltb (max_0 d) 0%float = false.
Proof. unfold max_0. destruct (PrimFloat.ltb d 0) eqn:E; [reflexivity|exact E]. Qed.

Lemma print_quiet (b : bool) (line : log_line) :
  yielded (if b then [Print line] else []) = [] /\
  sleeps (if b then [Print line] else []) = [].
Proof. now destruct b. Qed.

Section Loop.

Context {ENCODER : Encoding}.
Variable clock : nat -> PrimFloat.float.
Variable tokens : list N.
Variable output_speed : PrimFloat.float.
Variable debug_mode : bool.
Variable smoothing_factor : PrimFloat.float.

Local Abbreviation timing := (timing_adjustment output_speed debug_mode smoothing_factor).
Local Abbreviation step := (loop_body clock tokens output_speed debug_mode smoothing_factor).
Local Abbreviation loop := (while_loop clock tokens output_speed debug_mode smoothing_factor).

(** The timing adjustment yields nothing; it calls [time.sleep] at most
    once, with a number that is not below zero, and it raises exactly when
    that call does. *)
Lemma timing_adjustment_calls st expected :
  let (adjust, ending) := timing st expected in
  yielded adjust = [] /\
  Forall (fun secs => PrimFloat.ltb secs 0%float = false) (sleeps adjust) /\
  match ending with
  | Return _ => forallb accepted (sleeps adjust) = true
  | Raise e =>
      forallb accepted (sleeps adjust) = false /\
      (e = ValueError \/ e = OverflowError)
  end.
Proof.
  unfold timing_adjustment. cbv zeta.
  destruct (PrimFloat.ltb expected _).
  - set (delay := max_0 _).
    pose proof (max_0_not_below_zero
                  (PrimFloat.add
                     (PrimFloat.mul smoothing_factor (last_delay st))
                     (PrimFloat.mul (PrimFloat.sub 1%float smoothing_factor)
                        (PrimFloat.div
                           (PrimFloat.sub (of_int (tokens_sent st)) expected)
                           output_speed)))) as Hpos.
    fold delay in Hpos.
    destruct (time_sleep delay) as [e|] eqn:Hsleep.
    + cbn [yielded sleeps forallb]. unfold accepted. rewrite Hsleep.
      repeat split; [repeat constructor; exact Hpos|].
      now apply (time_sleep_raises delay).
    + cbn [yielded sleeps].
      destruct (print_quiet (debug_mode && (tokens_sent st mod 10 =? 0)%nat)
                  (LogAhead (PrimFloat.sub (of_int (tokens_sent st)) expected) delay))
        as [Hy Hs].
      rewrite Hy, Hs. cbn [forallb]. unfold accepted. rewrite Hsleep.
      repeat split. repeat constructor. exact Hpos.
  - destruct (PrimFloat.ltb _ _).
    + destruct (print_quiet (debug_mode && (tokens_sent st mod 10 =? 0)%nat)
                  (LogBehind (PrimFloat.sub expected (of_int (tokens_sent st)))))
        as [Hy Hs].
      rewrite Hy, Hs. repeat split. constructor.
    + repeat split. constructor.
Qed.

(** One iteration: what it does to the token cursor and the buffer when it
    comes to its end, and that it raises only out of [time.sleep], before
    it reads its token. *)
Lemma loop_body_step st token_id :
  nth_error tokens (i st) = Some token_id ->
  let buffer := token_buffer st ++ [token_id] in
  let (es, ending) := step st in
  Forall (fun secs => PrimFloat.ltb secs 0%float = false) (sleeps es) /\
  match ending with
  | Return st' =>
      forallb accepted (sleeps es) = true /\
      i st' = S (i st) /\
      match decode_strict buffer with
      | Some chunk_text =>
          yielded es = [Server._format_sse_message chunk_text] /\
          token_buffer st' = [] /\
          tokens_sent st' = (tokens_sent st + List.length buffer)%nat
      | None =>
          yielded es = [] /\ token_buffer st' = buffer /\
          tokens_sent st' = tokens_sent st
      end
  | Raise e =>
      yielded es = [] /\
      forallb accepted (sleeps es) = false /\
      (e = ValueError \/ e = OverflowError)
  end.
Proof.
  intros Hnth. unfold loop_body. cbv zeta.
  pose proof (timing_adjustment_calls st
                (PrimFloat.mul (PrimFloat.sub (clock (S (i st))) (start_time clock))
                   output_speed)) as Htiming.
  destruct (timing _ _) as [adjust [delay|e]].
  - destruct Htiming as (Hy & Hpos & Hacc). rewrite Hnth.
    destruct (decode_strict (token_buffer st ++ [token_id])) as [chunk|];
      cbn [i token_buffer tokens_sent yielded sleeps];
      rewrite ?yielded_concat, ?sleeps_concat, ?Hy; cbn [yielded sleeps];
      rewrite ?app_nil_r; auto 10.
  - destruct Htiming as (Hy & Hpos & Hacc & He).
    cbn [yielded sleeps]. auto.
Qed.

(** No call of [time.sleep] in the loop gets a number below zero. *)
Lemma while_loop_sleeps_not_below_zero fuel : forall st,
  Forall (fun secs => PrimFloat.ltb secs 0%float = false) (sleeps (fst (loop fuel st))).
Proof.
  induction fuel as [|fuel IH]; intros st; cbn [while_loop].
  - constructor.
  - destruct (Nat.ltb_spec (i st) (List.length tokens)) as [Hlt|Hge]; [|constructor].
    destruct (GeneratorFacts.nth_error_in_range tokens (i st) Hlt) as [t Ht].
    pose proof (loop_body_step st t Ht) as Hstep. cbv zeta in Hstep.
    destruct (step st) as [es [st'|e]]; destruct Hstep as [Hpos _].
    + specialize (IH st'). destruct (loop fuel st') as [es' ending].
      cbn [fst] in *. rewrite sleeps_concat. apply Forall_app. auto.
    + exact Hpos.
Qed.

(** The loop, beside the loop over exact numbers on the same tokens: while
    it runs it sends the same messages and keeps the same cursor, count and
    buffer, whatever the clocks, speeds, flags and factors of the two are;
    it raises only where [time.sleep] does. *)
Lemma while_loop_simulation qclock qspeed qdebug qfactor fuel : forall st ideal,
  i st = Server.i ideal ->
  tokens_sent st = Server.tokens_sent ideal ->
  token_buffer st = Server.token_buffer ideal ->
  match loop fuel st,
        Server.while_loop qclock tokens qspeed qdebug qfactor fuel ideal with
  | (es, Return final), (qes, _, qfinal) =>
      yielded es = Server.yielded qes /\
      forallb accepted (sleeps es) = true /\
      i final = Server.i qfinal /\
      tokens_sent final = Server.tokens_sent qfinal /\
      token_buffer final = Server.token_buffer qfinal
  | (es, Raise e), (qes, _, _) =>
      (exists rest, Server.yielded qes = yielded es ++ rest) /\
      forallb accepted (sleeps es) = false /\
      (e = ValueError \/ e = OverflowError)
  end.
Proof.
  induction fuel as [|fuel IH]; intros st ideal Hi Hsent Hbuffer;
    cbn [while_loop Server.while_loop].
  - auto.
  - rewrite <- Hi.
    destruct (Nat.ltb_spec (i st) (List.length tokens)) as [Hlt|Hge]; [|auto].
    destruct (GeneratorFacts.nth_error_in_range tokens (i st) Hlt) as [t Ht].
    pose proof (loop_body_step st t Ht) as Hstep. cbv zeta in Hstep.
    assert (Ht' : nth_error tokens (Server.i ideal) = Some t) by now rewrite <- Hi.
    pose proof (GeneratorFacts.loop_body_token qclock tokens qspeed qdebug qfactor
                  ideal t Ht') as Hideal.
    cbv zeta in Hideal. rewrite <- Hbuffer in Hideal.
    destruct (step st) as [es [st'|e]];
      destruct (Server.loop_body qclock tokens qspeed qdebug qfactor ideal)
        as [qes ideal'];
      destruct Hstep as [_ Hstep]; destruct Hideal as [Hi' Hideal].
    + destruct Hstep as (Hacc & Hnext & Hstep).
      assert (Hsame : yielded es = Server.yielded qes /\
                      tokens_sent st' = Server.tokens_sent ideal' /\
                      token_buffer st' = Server.token_buffer ideal').
      { destruct (decode_strict (token_buffer st ++ [t]));
          destruct Hstep as (-> & -> & ->), Hideal as (-> & -> & ->);
          repeat split; congruence. }
      destruct Hsame as (Hy & Hsent' & Hbuffer').
      assert (Hcursor : i st' = Server.i ideal') by congruence.
      specialize (IH st' ideal' Hcursor Hsent' Hbuffer').
      destruct (loop fuel st') as [es' [final|e]];
        destruct (Server.while_loop qclock tokens qspeed qdebug qfactor fuel ideal')
          as [[qes' heads] qfinal].
      * destruct IH as (IHy & IHacc & IHrest).
        rewrite yielded_concat, sleeps_concat, forallb_app,
          GeneratorFacts.yielded_app, Hy, IHy, Hacc, IHacc. auto.
      * destruct IH as ((rest & IHy) & IHacc & IHe).
        rewrite yielded_concat, sleeps_concat, forallb_app,
          GeneratorFacts.yielded_app, Hy, IHy, Hacc, IHacc.
        split; [exists rest; now rewrite app_assoc|auto].
    + destruct Hstep as (Hy & Hacc & He).
      destruct (Server.while_loop qclock tokens qspeed qdebug qfactor fuel ideal')
        as [[qes' heads] qfinal].
      rewrite Hy. split; [eexists; reflexivity|auto].
Qed.

Lemma final_logging_quiet st sent :
  let (logged, ending) := final_logging clock tokens debug_mode st sent in
  yielded logged = [] /\ sleeps logged = [] /\
  (ending = Return tt \/ ending = Raise ZeroDivisionError).
Proof.
  unfold final_logging. destruct debug_mode; cbn [negb]; [|auto].
  destruct (sent mod 20 =? 0)%nat; [destruct (List.length tokens =? 0)%nat|];
    auto;
    destruct (PrimFloat.eqb _ _);
    rewrite ?yielded_concat, ?sleeps_concat; cbn [app yielded sleeps]; auto.
Qed.

(** How the final statistics end when [sent] is the number of tokens. *)
Lemma final_logging_outcome st sent :
  sent = List.length tokens ->
  snd (final_logging clock tokens debug_mode st sent)
  = if debug_mode
       && ((List.length tokens =? 0)%nat
           || PrimFloat.eqb
                (PrimFloat.sub (clock (S (List.length tokens))) (clock 0%nat))
                0%float)
    then Raise ZeroDivisionError
    else Return tt.
Proof.
  intros ->. unfold final_logging, start_time.
  destruct debug_mode; cbn [negb andb snd]; [|reflexivity].
  destruct (Nat.eqb_spec (List.length tokens) 0) as [Hzero|Hsome].
  - rewrite Hzero. reflexivity.
  - cbn [orb].
    destruct (List.length tokens mod 20 =? 0)%nat;
      destruct (PrimFloat.eqb _ _); reflexivity.
Qed.

End Loop.

Lemma flush_as_over_exact_numbers {ENCODER : Encoding} st ideal :
  tokens_sent st = Server.tokens_sent ideal ->
  token_buffer st = Server.token_buffer ideal ->
  yielded (fst (flush st)) = Server.yielded (fst (Server.flush ideal)) /\
  sleeps (fst (flush st)) = [] /\
  snd (flush st) = snd (Server.flush ideal).
Proof.
  intros Hsent Hbuffer. unfold flush, Server.flush.
  rewrite <- Hsent, <- Hbuffer. now destruct (token_buffer st).
Qed.

(** A run, beside the run over exact numbers on the same text: its messages
    are the first messages of that run, and all of them when it reaches
    its end; it reaches its end unless [ENCODER.encode], the first [print]
    or a [time.sleep] raises. *)
Lemma run_beside_exact_run {ENCODER : Encoding} clock response_text model_name
    debug_mode smoothing_factor qclock qdebug qfactor :
  let r := _generate_streaming_response clock response_text model_name
             debug_mode smoothing_factor in
  let exact := Server._generate_streaming_response qclock response_text
                 model_name qdebug qfactor in
  (exists rest,
     Server.yielded (Server.effects exact) = yielded (effects r) ++ rest /\
     (reaches_end r = true -> rest = [])) /\
  reaches_end r
  = negb (has_special_token response_text)
    && (negb debug_mode || console_writes model_name)
    && forallb accepted (sleeps (effects r)) /\
  (reaches_end r = true ->
   outcome r
   = let total_tokens := List.length (encode response_text) in
     if debug_mode
        && ((total_tokens =? 0)%nat
            || PrimFloat.eqb
                 (PrimFloat.sub (clock (S total_tokens)) (clock 0%nat)) 0%float)
     then Raise ZeroDivisionError
     else Return tt) /\
  (reaches_end r = false ->
   outcome r = Raise ValueError \/ outcome r = Raise OverflowError \/
   outcome r = Raise UnicodeEncodeError).
Proof.
  cbv zeta. unfold _generate_streaming_response, ENCODER_encode.
  destruct (has_special_token response_text); cbn [negb andb].
  { cbn [effects outcome yielded reaches_end app].
    split; [eexists; split; [reflexivity|discriminate]|].
    split; [reflexivity|]. split; [discriminate|auto]. }
  destruct (debug_mode && negb (console_writes model_name)) eqn:Hconsole.
  { apply andb_true_iff in Hconsole. destruct Hconsole as [-> Hconsole].
    apply negb_true_iff in Hconsole. rewrite Hconsole.
    cbn [effects outcome yielded reaches_end app negb orb andb].
    split; [eexists; split; [reflexivity|discriminate]|].
    split; [reflexivity|]. split; [discriminate|auto]. }
  assert (Hwrites : negb debug_mode || console_writes model_name = true).
  { destruct debug_mode; [|reflexivity]. cbn [andb negb orb] in *.
    now apply negb_false_iff in Hconsole. }
  rewrite Hwrites. cbn [andb].
  rewrite GeneratorFacts.generator_yields.
  pose proof (while_loop_simulation clock (encode response_text)
                (output_speed_of model_name) debug_mode smoothing_factor
                qclock (Server.output_speed_of model_name) qdebug qfactor
                (List.length (encode response_text))
                initial_state Server.initial_state eq_refl eq_refl eq_refl) as Hsim.
  destruct (PacingFacts.run_end qclock response_text model_name qdebug qfactor)
    as (qes & heads & qfinal & Hexact & _ & Hsent).
  rewrite Hexact in Hsim |- *.
  assert (Hbanner : forall (b : bool) (l : list effect),
            yielded ((if b then l else []) ++ []) = yielded (if b then l else [])).
  { intros. now rewrite app_nil_r. }
  destruct (while_loop _ _ _ _ _ _ _) as [es [final|e]].
  - destruct Hsim as (Hy & Hacc & _ & Hsent' & Hbuffer').
    destruct (flush_as_over_exact_numbers final qfinal Hsent' Hbuffer')
      as (Hflush & Hquiet & Hcount).
    pose proof (final_logging_quiet clock (encode response_text) debug_mode final
                  (snd (flush final))) as Hlog.
    pose proof (final_logging_outcome clock (encode response_text) debug_mode
                  final (snd (flush final)) (eq_trans Hcount Hsent)) as Hending.
    destruct (flush final) as [flushed sent]. cbn [fst snd] in *.
    destruct (final_logging _ _ _ _ _) as [logged ending].
    destruct Hlog as (Hlogged & Hlogs & Hend). cbn [snd] in Hending.
    cbn [effects outcome yielded sleeps].
    assert (Hyields : yielded ((if debug_mode
                                then [Print (LogStarting model_name);
                                      Print (LogTargetSpeed (output_speed_of model_name));
                                      Print (LogEstimatedTotal
                                               (List.length (encode response_text)))]
                                else []) ++ es ++ flushed ++ logged)
                      = Server.yielded qes
                        ++ Server.yielded (fst (Server.flush qfinal))).
    { rewrite !yielded_concat, Hy, Hflush, Hlogged, app_nil_r.
      now destruct debug_mode. }
    assert (Hsleeps : sleeps ((if debug_mode
                               then [Print (LogStarting model_name);
                                     Print (LogTargetSpeed (output_speed_of model_name));
                                     Print (LogEstimatedTotal
                                              (List.length (encode response_text)))]
                               else []) ++ es ++ flushed ++ logged)
                      = sleeps es).
    { rewrite !sleeps_concat, Hquiet, Hlogs, !app_nil_r.
      now destruct debug_mode. }
    rewrite Hyields, Hsleeps, Hacc.
    split; [exists []; now rewrite app_nil_r|].
    unfold reaches_end. cbn [outcome].
    destruct Hend as [-> | ->]; (split; [reflexivity|]);
      (split; [intros _; rewrite <- Hending; reflexivity|discriminate]).
  - destruct Hsim as ((rest & Hy) & Hacc & He).
    cbn [effects outcome yielded sleeps].
    assert (Hyields : yielded ((if debug_mode
                                then [Print (LogStarting model_name);
                                      Print (LogTargetSpeed (output_speed_of model_name));
                                      Print (LogEstimatedTotal
                                               (List.length (encode response_text)))]
                                else []) ++ es)
                      = yielded es).
    { rewrite yielded_concat. now destruct debug_mode. }
    assert (Hsleeps : sleeps ((if debug_mode
                               then [Print (LogStarting model_name);
                                     Print (LogTargetSpeed (output_speed_of model_name));
                                     Print (LogEstimatedTotal
                                              (List.length (encode response_text)))]
                               else []) ++ es)
                      = sleeps es).
    { rewrite sleeps_concat. now destruct debug_mode. }
    rewrite Hyields, Hsleeps, Hacc, Hy.
    unfold reaches_end. cbn [outcome].
    destruct He as [-> | ->];
      (split; [exists (rest ++ Server.yielded (fst (Server.flush qfinal)));
               split; [now rewrite app_assoc|discriminate]|]);
      (split; [reflexivity|]); (split; [discriminate|auto]).
Qed.

(** The messages of a run over exact numbers are the framings of chunk
    texts that add up to the text, for a text of scalar values whose tokens
    spell its UTF-8 form. *)
Lemma exact_run_chunks {ENCODER : Encoding} qclock (T model_name : text)
    qdebug qfactor :
  forallb Utf8.is_scalar T = true ->
  decode_bytes (encode T) = Utf8.encode T ->
  exists chunks,
    Server.yielded (Server.effects
                      (Server._generate_streaming_response qclock T model_name
                         qdebug qfactor))
    = map Server._format_sse_message chunks /\
    List.concat chunks = T.
Proof.
  intros Hscalar Hbytes. rewrite GeneratorFacts.generator_yields.
  destruct (Server.while_loop _ _ _ _ _ _ _) as [[streamed heads] st] eqn:Hrun.
  destruct (GeneratorFacts.while_loop_lossless qclock (encode T)
              (Server.output_speed_of model_name) qdebug qfactor _ _ _ _ _ T Hrun)
    as (chunks & Hy & Hcat & Hbuf).
  - reflexivity.
  - split; [|left; reflexivity].
    cbn [Server.initial_state Server.token_buffer Server.i skipn app].
    rewrite Hbytes. now apply Utf8Facts.decode_encode.
  - exists chunks. rewrite GeneratorFacts.flush_yields, Hbuf, app_nil_r. auto.
Qed.

(** What a client accumulates from the first messages of such a run: the
    text up to a boundary between two chunks. *)
Lemma accumulate_first_messages chunks stream rest :
  forallb Utf8.is_scalar (List.concat chunks) = true ->
  map Server._format_sse_message chunks = stream ++ rest ->
  exists sent unsent,
    List.concat chunks = sent ++ unsent /\
    Client.accumulate stream = Some sent /\
    (rest = [] -> unsent = []).
Proof.
  intros Hscalar Hmap. apply map_eq_app in Hmap.
  destruct Hmap as (first & later & -> & <- & <-).
  rewrite concat_app in *. rewrite forallb_app in Hscalar.
  apply andb_true_iff in Hscalar. destruct Hscalar as [Hfirst _].
  exists (List.concat first), (List.concat later). split; [reflexivity|]. split.
  - apply JsonFacts.accumulate_format_sse_messages.
    now rewrite <- JsonFacts.forallb_concat.
  - intros Hnone. apply map_eq_nil in Hnone. now subst later.
Qed.

End RuntimeGeneratorFacts.

(* ------------------------------------------------------------------ *)
(** ** The claims about the generator on its runtime *)

Module RuntimeClaims.
Import Runtime PrimFloat RuntimeGeneratorFacts.
#[local] Set Warnings "-inexact-float".









End RuntimeClaims.

(* ------------------------------------------------------------------ *)
(** ** More on the generator on its runtime *)

Module RuntimePacingFacts.
Import Database Sqlite Store Runtime PrimFloat RuntimeGeneratorFacts.
Import DatabaseFacts LikeFacts StoreFacts SqliteFacts RuntimeSearchFacts.
#[local] Set Warnings "-inexact-float".

(** X15.  No call of [time.sleep] gets a number below zero, whatever the
    clock reads and whatever the [smoothing_factor] is, in [0, 1] or not,
    infinite or NaN: the number is [max(d, 0)], which is NaN when [d]
    is. *)
Theorem sleeps_are_not_negative {ENCODER : Encoding} clock
    (response_text model_name : text) debug_mode smoothing_factor :
  Forall (fun secs => (secs <? 0)%float = false)
    (sleeps (effects (_generate_streaming_response clock response_text
                        model_name debug_mode smoothing_factor))).
Proof.
  unfold _generate_streaming_response.
  destruct (ENCODER_encode response_text) as [tokens|e]; [|constructor].
  destruct (debug_mode && negb (console_writes model_name)); [constructor|].
  pose proof (while_loop_sleeps_not_below_zero clock tokens
                (output_speed_of model_name) debug_mode smoothing_factor
                (List.length tokens) initial_state) as Hloop.
  destruct (while_loop _ _ _ _ _ _ _) as [streamed [st|e]]; cbn [fst] in Hloop.
  - pose proof (final_logging_quiet clock tokens debug_mode st (snd (flush st)))
      as Hlog.
    assert (Hflush : sleeps (fst (flush st)) = [])
      by (unfold flush; now destruct (token_buffer st)).
    destruct (flush st) as [flushed sent]. cbn [fst snd] in *.
    destruct (final_logging _ _ _ _ _) as [logged ending].
    destruct Hlog as (_ & Hlogged & _).
    cbn [effects sleeps]. rewrite !sleeps_concat, Hflush, Hlogged, !app_nil_r.
    destruct debug_mode; cbn [sleeps app]; exact Hloop.
  - cbn [effects sleeps]. rewrite sleeps_concat.
    destruct debug_mode; cbn [sleeps app]; exact Hloop.
Qed.


(** After [save_conversation] with a timestamp later than every stored
    one, the locator answers the same prompt, for a model whose name
    contains the recorded model name, with the recorded response. *)
Lemma located_after_saving db now recorded_model prompt_ response_
    requested_model :
  (forall c, In c (conversations db) -> text_ltb (timestamp c) now = true) ->
  str_in recorded_model requested_model = true ->
  forallb Utf8.is_scalar prompt_ = true ->
  pattern_too_complex (search_param prompt_) = false ->
  _find_matching_response
    (fst (save_conversation db now recorded_model prompt_ response_))
    prompt_ requested_model
  = Return response_.
Proof.
  intros Hnewest Hmodel Hscalar Hpattern.
  destruct (left_join_save db now recorded_model prompt_ response_)
    as (rows & Hjoin & Hne & Hall & _). cbv zeta in Hjoin, Hall.
  set (saved := save_conversation db now recorded_model prompt_ response_) in *.
  set (new := {| id := snd saved; model_name := recorded_model; timestamp := now;
                 prompt := prompt_; response := response_ |}) in *.
  unfold _find_matching_response.
  rewrite (search_conversations_accepted _ _ 100 0 Hscalar Hpattern).
  cbv zeta. cbn [skipn]. rewrite Hjoin.
  set (found := filter _ (left_join db ++ rows)).
  destruct rows as [|n rows']; [now elim Hne|].
  assert (Hn : conv n = new) by now inversion Hall.
  assert (Hfound : In n found).
  { apply filter_In. split; [apply in_or_app; right; now left|].
    rewrite Hn. unfold new, where_clause. cbn [prompt].
    now rewrite like_function_search_param_self. }
  destruct (order_by_timestamp_desc found) as [|h tl] eqn:Esorted.
  { apply In_order_by in Hfound. rewrite Esorted in Hfound. destruct Hfound. }
  assert (Hh : conv h = new).
  { assert (Hin : In h found) by (apply In_order_by; rewrite Esorted; now left).
    apply filter_In in Hin. destruct Hin as [Hin _].
    apply in_app_or in Hin. destruct Hin as [Hold|Hnew].
    - exfalso. apply In_left_join in Hold. specialize (Hnewest _ Hold).
      destruct (hd_sorted_newest found h tl n Esorted Hfound) as [->|Holder].
      + rewrite Hn in Hnewest. unfold new in Hnewest. cbn [timestamp] in Hnewest.
        pose proof (text_ltb_asym _ _ Hnewest). congruence.
      + unfold older in Holder. rewrite Hn in Holder. unfold new in Holder.
        cbn [timestamp] in Holder. congruence.
    - rewrite Forall_forall in Hall. now apply Hall. }
  cbn [firstn filter]. rewrite Hh. unfold new. cbn [model_name response].
  rewrite Hmodel. now rewrite Hh.
Qed.

(** X23.  Record, then replay.  After the recording client has saved an
    exchange with a timestamp later than every stored one, a request with
    the same prompt, for a model whose name contains the recorded model
    name, is answered with a stream; what a client accumulates from it is
    the recorded response up to a boundary between two chunks, and all of
    it when the generator reaches its end.  The texts are such as sqlite3
    binds, the prompt one that SQLite takes as a pattern, and the response
    holds no special token of the tokenizer. *)
Theorem recorded_exchange_is_replayed {ENCODER : Encoding} clock db now
    recorded_model prompt_ response_ requested_model debug factor :
  (forall c, In c (conversations db) -> text_ltb (timestamp c) now = true) ->
  forallb Utf8.is_scalar recorded_model = true ->
  str_in recorded_model requested_model = true ->
  forallb Utf8.is_scalar prompt_ = true ->
  pattern_too_complex (search_param prompt_) = false ->
  forallb Utf8.is_scalar response_ = true ->
  decode_bytes (encode response_) = Utf8.encode response_ ->
  has_special_token response_ = false ->
  let db' := fst (save_conversation db now recorded_model prompt_ response_) in
  let data := {| messages := Some [{| Server.content := Some prompt_ |}];
                 model := Some requested_model;
                 debug_mode_field := debug;
                 smoothing_factor_field := factor |} in
  exists r,
    chat_completions db' data = Return r /\
    exists sent unsent,
      response_ = sent ++ unsent /\
      Client.accumulate (yielded (effects (body clock r))) = Some sent /\
      (reaches_end (body clock r) = true -> unsent = []).
Proof.
  intros Hnewest _ Hmodel Hprompt Hpattern Hscalar Hbytes Hspecial db' data.
  unfold chat_completions, data. cbn [messages Server.content model].
  unfold db'. rewrite (located_after_saving db now recorded_model prompt_ response_
                         requested_model Hnewest Hmodel Hprompt Hpattern).
  eexists. split; [reflexivity|].
  unfold body. cbn [body_response_text body_model_name body_debug_mode
                    body_smoothing_factor].
  set (debug_mode := match debug with Some b => b | None => false end).
  set (smoothing_factor := match factor with Some f => f | None => 0.7%float end).
  destruct (run_beside_exact_run clock response_ requested_model debug_mode
              smoothing_factor (fun _ => 0%Q) false 0%Q) as ((rest & Hprefix & Hall) & _ & _ & _).
  destruct (exact_run_chunks (fun _ => 0%Q) response_ requested_model false 0%Q
              Hscalar Hbytes) as (chunks & Hchunks & Hconcat).
  rewrite Hchunks in Hprefix. rewrite <- Hconcat in Hscalar.
  destruct (accumulate_first_messages chunks _ _ Hscalar Hprefix)
    as (sent & unsent & Hsplit & Haccumulate & Hnone).
  assert (Hwhole : response_ = sent ++ unsent)
    by (rewrite <- Hconcat; exact Hsplit).
  exists sent, unsent. auto.
Qed.

Lemma recorded_exchange_is_replayed_witness :
  (forall c, In c (conversations Samples.one_exchange_db) ->
             text_ltb (timestamp c) MoreSamples.next_day = true) /\
  forallb Utf8.is_scalar (py "o1") = true /\
  str_in (py "o1") (py "o1-mini") = true /\
  forallb Utf8.is_scalar (py "Say hi") = true /\
  pattern_too_complex (search_param (py "Say hi")) = false /\
  forallb Utf8.is_scalar Samples.mixed_text = true /\
  decode_bytes (ENCODER := byte_level)
    (encode (Encoding := byte_level) Samples.mixed_text)
  = Utf8.encode Samples.mixed_text /\
  has_special_token Samples.mixed_text = false /\
  exists r,
    chat_completions
      (fst (save_conversation Samples.one_exchange_db MoreSamples.next_day
              (py "o1") (py "Say hi") Samples.mixed_text))
      (RuntimeSamples.request_for (py "Say hi") (py "o1-mini") None None)
    = Return r /\
    Client.accumulate
      (yielded (effects (body (ENCODER := byte_level)
                           RuntimeSamples.ticking_clock r)))
    = Some Samples.mixed_text.
Proof.
  assert (Hnewest : forall c, In c (conversations Samples.one_exchange_db) ->
                      text_ltb (timestamp c) MoreSamples.next_day = true).
  { intros c [<-|[]]. reflexivity. }
  split; [exact Hnewest|]. do 7 (split; [reflexivity|]).
  destruct (recorded_exchange_is_replayed (ENCODER := byte_level)
              RuntimeSamples.ticking_clock Samples.one_exchange_db
              MoreSamples.next_day (py "o1") (py "Say hi") Samples.mixed_text
              (py "o1-mini") None None
              Hnewest eq_refl eq_refl eq_refl eq_refl eq_refl eq_refl eq_refl)
    as (r & Hr & sent & unsent & Hsplit & Haccumulate & Hall).
  exists r. split; [exact Hr|].
  assert (Hend : reaches_end (body (ENCODER := byte_level)
                                RuntimeSamples.ticking_clock r) = true).
  { cbv zeta in Hr. vm_compute in Hr. injection Hr as <-. vm_compute. reflexivity. }
  rewrite Haccumulate, Hsplit, (Hall Hend), app_nil_r. reflexivity.
Defined.

End RuntimePacingFacts.

(* ------------------------------------------------------------------ *)
(** ** The runtime at work *)

Module RuntimeExamples.
Import Database Sqlite Runtime PrimFloat.
#[local] Set Warnings "-inexact-float".

(** SQLite reads the stored prompt "a", NUL, "b" as "a": the query "b"
    does not find it, and the query "a", NUL, "c", read as the pattern
    "%a", does. *)
Example like_stops_at_nul :
  _find_matching_response RuntimeSamples.nul_db (py "b") (py "o1") = Raise not_found /\
  _find_matching_response RuntimeSamples.nul_db (py "a" ++ [0] ++ py "c") (py "o1")
  = Return (py "ok").
Proof. vm_compute. auto. Qed.

(** A prompt of 49,999 octets makes a pattern of 50,001: the query raises
    on a store with a row, and finds nothing in an empty store. *)
Example long_pattern_raises :
  _find_matching_response Samples.one_exchange_db RuntimeSamples.long_prompt (py "o1")
  = Raise OperationalError /\
  _find_matching_response {| conversations := []; token_usages := [] |}
    RuntimeSamples.long_prompt (py "o1")
  = Raise not_found.
Proof. vm_compute. auto. Qed.

(** A prompt with a lone surrogate is not bound. *)
Example surrogate_prompt_raises :
  _find_matching_response Samples.one_exchange_db [0xD800] (py "o1")
  = Raise UnicodeEncodeError.
Proof. vm_compute. reflexivity. Qed.

Example time_sleep_verdicts :
  map time_sleep [0; 0.0075; -0; nan; -1; infinity; 2.5e298]%float
  = [None; None; None; Some ValueError; Some ValueError;
     Some OverflowError; Some OverflowError].
Proof. vm_compute. reflexivity. Qed.

(** Twelve tokens sent, 0.3 s elapsed at 40 tokens a second: the doubles
    give 12 expected tokens, and the step is not ahead. *)
Example twelve_tokens_in_time :
  ((0.3 - 0) * 40 <? of_int 12)%float = false.
Proof. vm_compute. reflexivity. Qed.

Example run_ab_frozen_clock :
  sleeps (effects (_generate_streaming_response (ENCODER := byte_level)
                     RuntimeSamples.frozen_clock (py "ab") (py "o1") false 0.7%float))
  = [0.0075000000000000015%float].
Proof. vm_compute. reflexivity. Qed.

End RuntimeExamples.
